(** * doc-srv: the document repository (doc_repo.go)

    A shallow embedding of the recursive revision of [doc_repo.go]: the
    README renderer ([renderReadme], [isRelativeURL]), the tree scanner
    ([scan], with the callback it hands to [filepath.WalkDir]) and the
    TTL cache ([GetSections]).

    Conventions of the embedding.
    - A Go [string] and a [[]byte] are Rocq strings, i.e. sequences of bytes.
    - [template.HTML] is a string.
    - A nil slice and an empty slice are both the empty list.  [scan] only
      ever returns nil or a slice with at least one element, and [cache]
      starts as nil, so [r.cache != nil] is "the list is not empty".
    - [time.Time] and [time.Duration] are integers (nanoseconds); the
      saturation of [time.Since] at about 292 years is not modelled.
    - Paths use the Unix separator, on which [filepath.ToSlash] is the
      identity.
    - The libraries the program calls are not part of it: goldmark,
      [sort.Slice] and the Unicode tables behind [strings.ToLower] are
      specified by what the program relies on ([Goldmark], [GoSort],
      [Strings.Casing]) and every theorem holds for all of them; the
      stand-ins further down only serve to run the model. *)

From Stdlib Require Import ZArith Lia Ascii.
From stdpp Require Import gmap strings list sorting.

Local Open Scope Z_scope.
#[local] Set Warnings "-register-all".

(** ** Go's [strings] package, on bytes *)

Module Strings.

(** Lower-casing of one ASCII byte, and of the ASCII letters of a string. *)
Definition ToLower_byte (c : ascii) : ascii :=
  let n := Ascii.N_of_ascii c in
  if ((65 <=? n) && (n <=? 90))%N then Ascii.ascii_of_N (n + 32) else c.

Fixpoint lowerASCII (s : string) : string :=
  match s with
  | EmptyString => EmptyString
  | String c s' => String (ToLower_byte c) (lowerASCII s')
  end.

Fixpoint HasPrefix (s prefix : string) {struct prefix} : bool :=
  match prefix, s with
  | EmptyString, _ => true
  | String _ _, EmptyString => false
  | String p prefix', String c s' =>
      if Ascii.eqb c p then HasPrefix s' prefix' else false
  end.

Fixpoint drop (n : nat) (s : string) : string :=
  match n, s with
  | O, _ => s
  | S n', String _ s' => drop n' s'
  | S _, EmptyString => EmptyString
  end.

(** [len(s) >= len(suffix) && s[len(s)-len(suffix):] == suffix] *)
Definition HasSuffix (s suffix : string) : bool :=
  (String.length suffix <=? String.length s)%nat
  && String.eqb (drop (String.length s - String.length suffix) s) suffix.

(** The spec's "case-insensitive match" of a leading pattern: byte by
    byte, two bytes match when they are equal after lower-casing. *)
Fixpoint EqualFoldPrefix (s pattern : string) {struct pattern} : bool :=
  match pattern, s with
  | EmptyString, _ => true
  | String _ _, EmptyString => false
  | String p pattern', String c s' =>
      if Ascii.eqb (ToLower_byte c) (ToLower_byte p)
      then EqualFoldPrefix s' pattern' else false
  end.

(** A literal is plain when its bytes are ASCII and neither [k] nor [i]:
    the two small ASCII letters that are also the lower case of a letter
    beyond ASCII (the Kelvin sign and the dotted capital I). *)
Definition plain_byte (c : ascii) : bool :=
  let n := Ascii.N_of_ascii c in
  ((n <? 128) && negb (n =? 107) && negb (n =? 105))%N.

Fixpoint plain (s : string) : bool :=
  match s with
  | EmptyString => true
  | String c s' => plain_byte c && plain s'
  end.

(** [strings.ToLower] maps every letter of Unicode to its lower case (and
    invalid UTF-8 to the replacement character), by the tables of the Go
    runtime, which are not part of this program.  It is specified by what
    the program relies on.  Bytes below 128 stand for themselves in
    UTF-8, and apart from the two letters above only an ASCII capital has
    an ASCII lower case; so asking whether the result starts with, ends
    with or equals a plain literal comes to asking it of the string with
    its ASCII letters lowered.  Nothing is assumed about the order of the
    results. *)
Class Casing := {
  ToLower : string -> string;
  ToLower_HasPrefix : forall s p,
    plain p = true -> HasPrefix (ToLower s) p = HasPrefix (lowerASCII s) p;
  ToLower_HasSuffix : forall s p,
    plain p = true -> HasSuffix (ToLower s) p = HasSuffix (lowerASCII s) p;
  ToLower_eqb : forall s p,
    plain p = true -> String.eqb (ToLower s) p = String.eqb (lowerASCII s) p
}.

End Strings.

(** ** [html/template]: [HTMLEscapeString] *)

Module template.

Definition HTML := string.

(** The replacement character U+FFFD in UTF-8, written for a NUL byte. *)
Definition htmlNull : string :=
  String "239"%char (String "191"%char (String "189"%char EmptyString)).

Definition escape_byte (c : ascii) : string :=
  if Ascii.eqb c "000"%char then htmlNull
  else if Ascii.eqb c "034"%char then "&#34;"
  else if Ascii.eqb c "039"%char then "&#39;"
  else if Ascii.eqb c "&"%char then "&amp;"
  else if Ascii.eqb c "<"%char then "&lt;"
  else if Ascii.eqb c ">"%char then "&gt;"
  else String c EmptyString.

Fixpoint HTMLEscapeString (s : string) : string :=
  match s with
  | EmptyString => EmptyString
  | String c s' => escape_byte c +:+ HTMLEscapeString s'
  end.

End template.

(** ** The goldmark document tree *)

Module ast.

(** [ast.Image] and [ast.Link] carry a [Destination]; every other node
    kind is left abstract. *)
Inductive NodeKind :=
| KindImage (Destination : string)
| KindLink (Destination : string)
| KindOther (kind : string).

Inductive Node :=
| MkNode (kind : NodeKind) (children : list Node).

(** [ast.Walk] with a visitor that always answers [WalkContinue] and only
    acts when entering: every node of the tree is visited once and
    replaced by the visitor's result. *)
Fixpoint Walk (visit : NodeKind -> NodeKind) (n : Node) : Node :=
  match n with
  | MkNode k cs => MkNode (visit k) (map (Walk visit) cs)
  end.

(** The destinations of the image and link nodes, in document order. *)
Fixpoint Destinations (n : Node) : list string :=
  match n with
  | MkNode k cs =>
      match k with
      | KindImage d | KindLink d => [d]
      | KindOther _ => []
      end ++ concat (map Destinations cs)
  end.

End ast.

(** The markdown engine: [md.Parser().Parse], which cannot fail, and
    [md.Renderer().Render], which writes HTML or reports an error. *)
Class Goldmark := {
  md_Parse : string -> ast.Node;
  md_Render : string -> ast.Node -> option string
}.

(** [sort.Slice] is specified by its contract only: the result is a
    rearrangement of the input in which no element is less than an earlier
    one.  The order of elements that compare equal is not promised. *)
Class GoSort := {
  sort_Slice : forall {A : Type}, (A -> A -> bool) -> list A -> list A;
  sort_Slice_Permutation :
    forall (A : Type) (less : A -> A -> bool) (x : list A),
      sort_Slice less x ≡ₚ x;
  sort_Slice_Sorted :
    forall (A : Type) (key : A -> string) (x : list A),
      StronglySorted (fun a b => String.le (key a) (key b))
        (sort_Slice (fun a b => String.ltb (key a) (key b)) x)
}.

(** ** Errors *)

Inductive GoError :=
| ErrStat       (* "could not stat docs directory" *)
| ErrReadFile.  (* os.ReadFile failed *)

Inductive result (A : Type) :=
| Ok (a : A)
| Err (e : GoError).
Arguments Ok {A} a.
Arguments Err {A} e.

(** ** The file tree below the document root *)

(** What [os.ReadDir] and [os.ReadFile] answer.  A [File] is any entry that
    is not a directory, a symbolic link included ([os.ReadDir] does not
    follow links, so to the walk a link is never a directory); its
    [content] is what [os.ReadFile] gets, [None] when it cannot be read.  A
    [Dir] lists the entries [os.ReadDir] returned (in the order returned)
    and tells whether [os.ReadDir] also reported an error. *)
Inductive Entry :=
| File (name : string) (content : option string)
| Dir (name : string) (entries : list Entry) (readErr : bool).

Definition Entry_Name (d : Entry) : string :=
  match d with File n _ | Dir n _ _ => n end.

Definition IsDir (d : Entry) : bool :=
  match d with File _ _ => false | Dir _ _ _ => true end.

Definition os_ReadFile (d : Entry) : result string :=
  match d with
  | File _ (Some content) => Ok content
  | _ => Err ErrReadFile
  end.

(** ** The narrative renderer *)

Definition isRelativeURL `{!Strings.Casing} (u : string) : bool :=
  let lower := Strings.ToLower u in
  if Strings.HasPrefix lower "http://" || Strings.HasPrefix lower "https://"
  then false
  else negb (Strings.HasPrefix lower "/").

(** The spec's wording of "relative": not an absolute path and not an
    http or https URL, the scheme compared without regard to case. *)
Definition spec_relative (u : string) : bool :=
  negb (Strings.HasPrefix u "/")
  && negb (Strings.EqualFoldPrefix u "http://"
           || Strings.EqualFoldPrefix u "https://").

(** The spec's wording of the rewriting: a relative reference gets
    ["/docs/" + sectionPath + "/"] in front, every other one passes through. *)
Definition spec_rewrite (sectionPath ref : string) : string :=
  if spec_relative ref then "/docs/" +:+ sectionPath +:+ "/" +:+ ref else ref.

(** A node with [f] applied to its destination, if it has one. *)
Definition retarget (f : string -> string) (k : ast.NodeKind) : ast.NodeKind :=
  match k with
  | ast.KindImage d => ast.KindImage (f d)
  | ast.KindLink d => ast.KindLink (f d)
  | ast.KindOther t => ast.KindOther t
  end.

Definition rewrite `{!Strings.Casing} (basePrefix : string) (dest : string) : string :=
  if isRelativeURL dest then basePrefix +:+ dest else dest.

(** The visitor of [renderReadme]: images and links get their destination
    rewritten, other nodes are left alone. *)
Definition rewriteNode `{!Strings.Casing} (basePrefix : string) (k : ast.NodeKind)
    : ast.NodeKind :=
  match k with
  | ast.KindImage d => ast.KindImage (rewrite basePrefix d)
  | ast.KindLink d => ast.KindLink (rewrite basePrefix d)
  | ast.KindOther t => ast.KindOther t
  end.

Section Renderer.
Context `{!Strings.Casing} `{!Goldmark}.

(** The tree [renderReadme] hands to the renderer. *)
Definition rewrittenDoc (content relDir : string) : ast.Node :=
  let doc := md_Parse content in
  let basePrefix := "/docs/" +:+ relDir +:+ "/" in
  ast.Walk (rewriteNode basePrefix) doc.

(** [path] is represented by the entry it names. *)
Definition renderReadme (path : Entry) (relDir : string) : result template.HTML :=
  match os_ReadFile path with
  | Err e => Err e
  | Ok content =>
      match md_Render content (rewrittenDoc content relDir) with
      | None => Ok (template.HTMLEscapeString content)
      | Some buf => Ok buf
      end
  end.

End Renderer.

(** ** [path/filepath] on the paths of the walk *)

Module filepath.

(** The part of [path] before its last separator, if it has one. *)
Fixpoint beforeLastSeparator (path : string) : option string :=
  match path with
  | EmptyString => None
  | String c path' =>
      match beforeLastSeparator path' with
      | Some p => Some (String c p)
      | None => if Ascii.eqb c "/"%char then Some EmptyString else None
      end
  end.

(** [filepath.Dir]: everything up to the last separator, cleaned.  Of
    [Clean] only what applies to names joined by single separators is
    modelled: the trailing separator is dropped, an empty result is ["."]
    and the root stays ["/"]. *)
Definition Dir (path : string) : string :=
  match beforeLastSeparator path with
  | None => "."
  | Some EmptyString => "/"
  | Some p => p
  end.

Definition ToSlash (path : string) : string := path.

(** [Join] of names with the separator. *)
Fixpoint Join (elem : list string) : string :=
  match elem with
  | [] => EmptyString
  | [e] => e
  | e :: rest => e +:+ "/" +:+ Join rest
  end.

(** What [Join] puts behind the first name. *)
Definition afterFirst (rest : list string) : string :=
  match rest with
  | [] => EmptyString
  | _ :: _ => "/" +:+ Join rest
  end.

End filepath.

(** ** The data model *)

Record Document := {
  doc_Name : string;
  doc_URL : string
}.

Record Section := {
  sec_Name : string;
  sec_Documents : list Document;
  sec_Readme : template.HTML
}.

Record DocRepository := {
  dir : string;
  cache : list Section;
  cacheTime : Z;
  ttl : Z
}.

Definition NewDocRepository (dir : string) (cacheTTL : Z) : DocRepository :=
  {| dir := dir; cache := []; cacheTime := 0; ttl := cacheTTL |}.

(** ** The file system *)

(** What lies at a path: a file or a directory itself, or a symbolic link
    with what it leads to, if anything. *)
Inductive Found :=
| Plain (d : Entry)
| Symlink (name : string) (target : option Entry).

Definition FS := string -> option Found.

(** [os.Stat] follows a symbolic link and fails on one that leads
    nowhere; [os.Lstat] does not follow it: what it finds then is an entry
    that is not a directory, whatever the link leads to. *)
Definition os_Stat (fs : FS) (name : string) : option Entry :=
  match fs name with
  | None => None
  | Some (Plain d) => Some d
  | Some (Symlink _ target) => target
  end.

Definition os_Lstat (fs : FS) (name : string) : option Entry :=
  match fs name with
  | None => None
  | Some (Plain d) => Some d
  | Some (Symlink n target) =>
      Some (File n match target with
                   | Some (File _ content) => content
                   | _ => None
                   end)
  end.

(** ** The tree scanner *)

Inductive LogLine :=
| ErrorAccessing (path : list string)
| ErrorReadingREADME (dirRel : string).

(** The variables the walk callback closes over, and the log. *)
Record ScanState := {
  generalDocs : list Document;
  sectionsMap : gmap string Section;
  logged : list LogLine
}.

Definition initScan : ScanState :=
  {| generalDocs := []; sectionsMap := ∅; logged := [] |}.

Definition log_Printf (l : LogLine) (st : ScanState) : ScanState :=
  {| generalDocs := generalDocs st; sectionsMap := sectionsMap st;
     logged := logged st ++ [l] |}.

Definition appendGeneral (d : Document) (st : ScanState) : ScanState :=
  {| generalDocs := generalDocs st ++ [d]; sectionsMap := sectionsMap st;
     logged := logged st |}.

(** [sectionsMap[k] = sec], and every later write through the pointer. *)
Definition storeSection (k : string) (sec : Section) (st : ScanState) : ScanState :=
  {| generalDocs := generalDocs st; sectionsMap := <[k := sec]> (sectionsMap st);
     logged := logged st |}.

Definition General : string := "Общее".

Definition lessByLowerName `{!Strings.Casing} (a b : Document) : bool :=
  String.ltb (Strings.ToLower (doc_Name a)) (Strings.ToLower (doc_Name b)).

Section Scanner.
Context `{!Strings.Casing} `{!Goldmark} `{!GoSort}.

(** The callback.  [path] is the list of names below [r.dir], so that
    [path == r.dir] is [path = []] and [filepath.Rel(r.dir, path)] is the
    names joined; [Rel] cannot fail on a path that [WalkDir] built by
    joining names onto [r.dir], so the callback never returns an error. *)
Definition walkFn (path : list string) (d : Entry) (err : bool)
    (st : ScanState) : ScanState :=
  if err then log_Printf (ErrorAccessing path) st
  else match path with
  | [] => st
  | _ :: _ =>
    let rel := filepath.Join path in
    if IsDir d then st
    else
      let lowerName := Strings.ToLower (Entry_Name d) in
      let dirRel := filepath.Dir rel in
      if String.eqb dirRel "." then
        if Strings.HasSuffix lowerName ".pdf" then
          appendGeneral {| doc_Name := Entry_Name d;
                           doc_URL := "/docs/" +:+ Entry_Name d |} st
        else st
      else
        let '(sec, st) :=
          match sectionsMap st !! dirRel with
          | Some sec => (sec, st)
          | None =>
              let sec := {| sec_Name := filepath.ToSlash dirRel;
                            sec_Documents := []; sec_Readme := "" |} in
              (sec, storeSection dirRel sec st)
          end in
        if Strings.HasSuffix lowerName ".pdf" then
          storeSection dirRel
            {| sec_Name := sec_Name sec;
               sec_Documents := sec_Documents sec ++
                 [{| doc_Name := Entry_Name d;
                     doc_URL := "/docs/" +:+ filepath.ToSlash rel |}];
               sec_Readme := sec_Readme sec |} st
        else if String.eqb lowerName "readme.md" then
          match renderReadme d (filepath.ToSlash dirRel) with
          | Err _ => log_Printf (ErrorReadingREADME dirRel) st
          | Ok readmeHTML =>
              storeSection dirRel
                {| sec_Name := sec_Name sec;
                   sec_Documents := sec_Documents sec;
                   sec_Readme := readmeHTML |} st
          end
        else st
  end.

(** [filepath.WalkDir]'s recursion: the callback on the entry, then for a
    directory the callback again if [os.ReadDir] reported an error, then
    the entries that were read, each under its joined path. *)
Fixpoint walkDir (path : list string) (d : Entry) (st : ScanState) : ScanState :=
  let st := walkFn path d false st in
  match d with
  | File _ _ => st
  | Dir _ dirs readErr =>
      let st := if readErr then walkFn path d true st else st in
      (fix each (dirs : list Entry) (st : ScanState) : ScanState :=
         match dirs with
         | [] => st
         | d1 :: dirs' => each dirs' (walkDir (path ++ [Entry_Name d1]) d1 st)
         end) dirs st
  end.

Definition walkEntries (path : list string) (dirs : list Entry)
    (st : ScanState) : ScanState :=
  foldl (fun st d1 => walkDir (path ++ [Entry_Name d1]) d1 st) st dirs.

Definition WalkDir (root : Entry) (st : ScanState) : ScanState :=
  walkDir [] root st.

(** [filepath.WalkDir(root, walkFn)] begins with [os.Lstat] of the root
    and walks what that finds; when it finds nothing the callback gets the
    error, with a nil entry that it does not look at. *)
Definition nilEntry : Entry := File "" None.

Definition WalkDirFrom (fs : FS) (root : string) (st : ScanState) : ScanState :=
  match os_Lstat fs root with
  | Some d => WalkDir d st
  | None => walkFn [] nilEntry true st
  end.

(** Assembly, part one: the General section. *)
Definition generalSection (generalDocs : list Document) : list Section :=
  match generalDocs with
  | [] => []
  | _ :: _ =>
      [{| sec_Name := General;
          sec_Documents := sort_Slice lessByLowerName generalDocs;
          sec_Readme := "" |}]
  end.

(** [sort.Strings]: the keys of a map are distinct and the byte-wise order
    is total, so every sorting algorithm returns this same list. *)
Definition sort_Strings (keys : list string) : list string :=
  merge_sort String.le keys.

Definition mapKeys (m : gmap string Section) : list string :=
  (map_to_list m).*1.

(** One round of the loop over the sorted keys. *)
Definition emitSection (m : gmap string Section) (k : string) : option Section :=
  match m !! k with
  | None => None
  | Some sec =>
      if bool_decide (sec_Documents sec = []) && String.eqb (sec_Readme sec) ""
      then None
      else Some {| sec_Name := sec_Name sec;
                   sec_Documents := sort_Slice lessByLowerName (sec_Documents sec);
                   sec_Readme := sec_Readme sec |}
  end.

Definition dirSections (m : gmap string Section) : list Section :=
  omap (emitSection m) (sort_Strings (mapKeys m)).

Definition scan (r : DocRepository) (fs : FS) : result (list Section) :=
  match os_Stat fs (dir r) with
  | None => Err ErrStat
  | Some _ =>
      let st := WalkDirFrom fs (dir r) initScan in
      Ok (generalSection (generalDocs st) ++ dirSections (sectionsMap st))
  end.

End Scanner.

(** ** The TTL cache *)

(** The clock readings of one call: [time.Since] under the read lock,
    [time.Since] under the write lock, [time.Now] when the cache is stored. *)
Record Clock := {
  atRLock : Z;
  atLock : Z;
  atStore : Z
}.

Definition ticks (c : Clock) : Prop :=
  atRLock c <= atLock c /\ atLock c <= atStore c.

(** What one call leaves behind: its return values, the repository, and
    how often it called [scan]. *)
Record Outcome := {
  returned : result (list Section);
  repo : DocRepository;
  scans : nat
}.

(** [time.Since(r.cacheTime) < r.ttl && r.cache != nil] *)
Definition isFresh (r : DocRepository) (now : Z) : bool :=
  (now - cacheTime r <? ttl r) && negb (bool_decide (cache r = [])).

Section Cache.
Context `{!Strings.Casing} `{!Goldmark} `{!GoSort}.

(** The part of [GetSections] under the write lock: the second check, and
    the refresh.  Between a caller's first check and this part other callers
    may have refreshed the repository. *)
Definition underLock (r : DocRepository) (fs : FS) (clk : Clock) : Outcome :=
  if isFresh r (atLock clk) then
    {| returned := Ok (cache r); repo := r; scans := 0 |}
  else
    match scan r fs with
    | Err err => {| returned := Err err; repo := r; scans := 1 |}
    | Ok sections =>
        {| returned := Ok sections;
           repo := {| dir := dir r; cache := sections;
                      cacheTime := atStore clk; ttl := ttl r |};
           scans := 1 |}
    end.

Definition GetSections (r : DocRepository) (fs : FS) (clk : Clock) : Outcome :=
  if isFresh r (atRLock clk) then
    {| returned := Ok (cache r); repo := r; scans := 0 |}
  else underLock r fs clk.

(** A sequence of calls, each with the file system as it is at that
    moment; the results in order, the final repository and the number of
    scans. *)
Fixpoint calls (r : DocRepository) (cs : list (FS * Clock))
    : list (result (list Section)) * DocRepository * nat :=
  match cs with
  | [] => ([], r, O)
  | (fs, clk) :: cs' =>
      let o := GetSections r fs clk in
      let '(rs, r', n) := calls (repo o) cs' in
      (returned o :: rs, r', (scans o + n)%nat)
  end.

End Cache.

(** ** Stand-ins for the libraries, to run the model *)

(** Case tables that know the ASCII letters only. *)
Definition asciiCasing : Strings.Casing :=
  {| Strings.ToLower := Strings.lowerASCII;
     Strings.ToLower_HasPrefix := fun _ _ _ => eq_refl;
     Strings.ToLower_HasSuffix := fun _ _ _ => eq_refl;
     Strings.ToLower_eqb := fun _ _ _ => eq_refl |}.

(** Case tables that also know the Russian capitals, U+0410 to U+042F: in
    UTF-8 the byte 208 followed by a byte from 144 to 175.  The first
    sixteen keep the leading byte and add 32 to the second; the other
    sixteen get the leading byte 209 and the second byte less 32. *)
Definition russianCapital (c1 c2 : ascii) : bool :=
  let n := Ascii.N_of_ascii c2 in
  (Ascii.eqb c1 "208"%char && (144 <=? n) && (n <=? 175))%N.

Definition russianSmall (c2 : ascii) : string :=
  let n := Ascii.N_of_ascii c2 in
  if (n <? 160)%N
  then String "208"%char (String (Ascii.ascii_of_N (n + 32)) EmptyString)
  else String "209"%char (String (Ascii.ascii_of_N (n - 32)) EmptyString).

Fixpoint russianLower (s : string) : string :=
  match s with
  | EmptyString => EmptyString
  | String c1 s' =>
      match s' with
      | String c2 s'' =>
          if russianCapital c1 c2 then russianSmall c2 +:+ russianLower s''
          else String (Strings.ToLower_byte c1) (russianLower s')
      | EmptyString => String (Strings.ToLower_byte c1) EmptyString
      end
  end.

(** Two strings are alike when they are equally long and differ only
    where both have a byte beyond ASCII. *)
Fixpoint alike (u v : string) : bool :=
  match u, v with
  | EmptyString, EmptyString => true
  | String a u', String b v' =>
      (Ascii.eqb a b
       || ((128 <=? Ascii.N_of_ascii a) && (128 <=? Ascii.N_of_ascii b))%N)
      && alike u' v'
  | _, _ => false
  end.

Definition russianCasing : Strings.Casing.
Proof.
  assert (Hbyte : forall a b q,
            (Ascii.eqb a b
             || ((128 <=? Ascii.N_of_ascii a) && (128 <=? Ascii.N_of_ascii b))%N)
            = true ->
            Strings.plain_byte q = true -> Ascii.eqb a q = Ascii.eqb b q).
  { intros a b q Hab Hq. apply orb_true_iff in Hab as [->%Ascii.eqb_eq|Hab]; [done|].
    apply andb_true_iff in Hab as [Ha%N.leb_le Hb%N.leb_le].
    unfold Strings.plain_byte in Hq. cbv zeta in Hq.
    apply andb_true_iff in Hq as [[Hq%N.ltb_lt _]%andb_true_iff _].
    assert (Ascii.eqb a q = false) as -> by (apply Ascii.eqb_neq; intros ->; lia).
    symmetry. apply Ascii.eqb_neq. intros ->. lia. }
  assert (Hprefix : forall p u v, Strings.plain p = true -> alike u v = true ->
            Strings.HasPrefix u p = Strings.HasPrefix v p).
  { induction p as [|q p IH]; intros u v Hp Huv; [done|].
    cbn [Strings.plain] in Hp. apply andb_true_iff in Hp as [Hq Hp].
    destruct u as [|a u], v as [|b v]; try done.
    cbn [alike] in Huv. apply andb_true_iff in Huv as [Hab Huv].
    cbn [Strings.HasPrefix]. rewrite (Hbyte a b q Hab Hq), (IH u v Hp Huv). done. }
  assert (Heqb : forall p u v, Strings.plain p = true -> alike u v = true ->
            String.eqb u p = String.eqb v p).
  { induction p as [|q p IH]; intros u v Hp Huv.
    - by destruct u, v.
    - cbn [Strings.plain] in Hp. apply andb_true_iff in Hp as [Hq Hp].
      destruct u as [|a u], v as [|b v]; try done.
      cbn [alike] in Huv. apply andb_true_iff in Huv as [Hab Huv].
      cbn [String.eqb]. rewrite (Hbyte a b q Hab Hq), (IH u v Hp Huv). done. }
  assert (Hlength : forall u v, alike u v = true -> String.length u = String.length v).
  { induction u as [|a u IH]; intros [|b v] Huv; try done.
    cbn [alike] in Huv. apply andb_true_iff in Huv as [_ Huv].
    cbn [String.length]. by rewrite (IH v Huv). }
  assert (Hdrop : forall n u v, alike u v = true ->
            alike (Strings.drop n u) (Strings.drop n v) = true).
  { induction n as [|n IH]; intros u v Huv; [done|].
    destruct u as [|a u], v as [|b v]; try done.
    cbn [alike] in Huv. apply andb_true_iff in Huv as [_ Huv].
    cbn [Strings.drop]. by apply IH. }
  assert (Hsuffix : forall p u v, Strings.plain p = true -> alike u v = true ->
            Strings.HasSuffix u p = Strings.HasSuffix v p).
  { intros p u v Hp Huv. unfold Strings.HasSuffix.
    rewrite (Hlength u v Huv). f_equal. apply Heqb; [done|]. by apply Hdrop. }
  assert (Hrefl : forall c, (Ascii.eqb c c || ((128 <=? Ascii.N_of_ascii c)
                               && (128 <=? Ascii.N_of_ascii c))%N) = true)
    by (intros c; by rewrite Ascii.eqb_refl).
  assert (Halike : forall s,
            alike (russianLower s) (Strings.lowerASCII s) = true
            /\ forall c, alike (russianLower (String c s))
                           (Strings.lowerASCII (String c s)) = true).
  { induction s as [|c2 s [IH1 IH2]].
    - split; [done|]. intros c. cbn. by rewrite Ascii.eqb_refl.
    - split; [apply IH2|]. intros c1.
      change (russianLower (String c1 (String c2 s)))
        with (if russianCapital c1 c2 then russianSmall c2 +:+ russianLower s
              else String (Strings.ToLower_byte c1) (russianLower (String c2 s))).
      destruct (russianCapital c1 c2) eqn:Hcap.
      + unfold russianCapital in Hcap. cbv zeta in Hcap.
        apply andb_true_iff in Hcap as [[->%Ascii.eqb_eq Hlo]%andb_true_iff Hhi].
        cbn [Strings.lowerASCII]. revert IH1.
        generalize (russianLower s) (Strings.lowerASCII s). intros rs ls.
        destruct c2 as [[] [] [] [] [] [] [] []]; try discriminate Hlo;
          try discriminate Hhi; vm_compute; exact (fun IH1 => IH1).
      + cbn [Strings.lowerASCII alike]. rewrite Hrefl.
        apply (IH2 c2). }
  refine {| Strings.ToLower := russianLower |}.
  - intros s p Hp. apply Hprefix; [done|apply Halike].
  - intros s p Hp. apply Hsuffix; [done|apply Halike].
  - intros s p Hp. apply Heqb; [done|apply Halike].
Defined.

(** A sort that meets the contract of [sort.Slice]. *)
Definition notAfter {A : Type} (less : A -> A -> bool) (a b : A) : Prop :=
  less b a = false.

#[local] Instance notAfter_dec {A} (less : A -> A -> bool) :
  RelDecision (notAfter less).
Proof. intros a b. unfold notAfter. apply _. Defined.

Definition stableSort {A : Type} (less : A -> A -> bool) (x : list A) : list A :=
  merge_sort (notAfter less) x.

Definition stableGoSort : GoSort.
Proof.
  refine {| sort_Slice := @stableSort |}.
  - intros A less x. apply merge_sort_Permutation.
  - intros A key x. unfold stableSort.
    set (R := notAfter (fun a b => String.ltb (key a) (key b))).
    assert (HR : forall a b, R a b <-> String.le (key a) (key b)).
    { intros a b. unfold R, notAfter, String.le, String.ltb, String.leb.
      rewrite (String.compare_antisym (key a) (key b)).
      destruct (String.compare (key b) (key a)); simpl; intuition done. }
    assert (Transitive R) by (intros a b c; rewrite !HR; apply transitivity).
    assert (Total R) by (intros a b; rewrite !HR; apply total, _).
    pose proof (StronglySorted_merge_sort R x) as Hs.
    induction Hs as [|a l _ IH Hall]; constructor; [done|].
    eapply Forall_impl; [done|]. intros b. apply HR.
Defined.

(** A markdown engine that knows headings and paragraphs only. *)
Definition simpleParse (content : string) : ast.Node :=
  if Strings.HasPrefix content "# "
  then ast.MkNode (ast.KindOther "Document") [ast.MkNode (ast.KindOther "Heading") []]
  else ast.MkNode (ast.KindOther "Document") [ast.MkNode (ast.KindOther "Paragraph") []].

Definition simpleRender (content : string) (doc : ast.Node) : option string :=
  if Strings.HasPrefix content "# "
  then Some ("<h1>" +:+ Strings.drop 2 content +:+ "</h1>")
  else Some ("<p>" +:+ content +:+ "</p>").

Definition simpleGoldmark : Goldmark :=
  {| md_Parse := simpleParse; md_Render := simpleRender |}.

(** An engine whose renderer always reports an error. *)
Definition failingGoldmark : Goldmark :=
  {| md_Parse := simpleParse; md_Render := fun _ _ => None |}.

(** An engine for destinations: it reads a README as one link to what the
    text says, followed by an image, and writes the destinations of a tree
    one to a line, a line feed inside a destination written as a space. *)
Definition lineFeed : ascii := "010"%char.

Fixpoint noLineFeed (d : string) : string :=
  match d with
  | EmptyString => EmptyString
  | String c d' =>
      String (if Ascii.eqb c lineFeed then " "%char else c) (noLineFeed d')
  end.

Definition linkParse (content : string) : ast.Node :=
  ast.MkNode (ast.KindOther "Document")
    [ ast.MkNode (ast.KindOther "Paragraph")
        [ast.MkNode (ast.KindLink content) []];
      ast.MkNode (ast.KindImage "/logo.png") [] ].

Definition linkRender (content : string) (doc : ast.Node) : option string :=
  Some (foldr (fun d out => noLineFeed d +:+ String lineFeed out) EmptyString
          (ast.Destinations doc)).

Definition linkGoldmark : Goldmark :=
  {| md_Parse := linkParse; md_Render := linkRender |}.

(** The lines of a text, each one ended by a line feed. *)
Fixpoint linesFrom (cur : string) (s : string) : list string :=
  match s with
  | EmptyString => []
  | String c s' =>
      if Ascii.eqb c lineFeed then cur :: linesFrom EmptyString s'
      else linesFrom (cur +:+ String c EmptyString) s'
  end.

Definition lines (s : string) : list string := linesFrom EmptyString s.

(** The tree of the repository's own test: [root.pdf] in the root, [HR]
    with [hiring.pdf] and a README, [HR/2025] with [plan.pdf] and a README.
    [os.ReadDir] lists entries by name, capitals before small letters. *)
Definition scenarioRoot : Entry :=
  Dir "docs"
    [ Dir "HR"
        [ Dir "2025"
            [ File "README.md" (Some "# HR 2025");
              File "plan.pdf" (Some "pdf content") ] false;
          File "README.md" (Some "# HR Section");
          File "hiring.pdf" (Some "pdf content") ] false;
      File "root.pdf" (Some "pdf content") ] false.

(** A file system with one tree, at [p]. *)
Definition mount (p : string) (root : Entry) : FS :=
  fun q => if String.eqb q p then Some (Plain root) else None.

(** A file system with a symbolic link at [p] that leads to [target]. *)
Definition link (p : string) (target : option Entry) : FS :=
  fun q => if String.eqb q p then Some (Symlink p target) else None.

Definition noFS : FS := fun _ => None.

(** The engine that writes the escaped raw content itself where [G]
    reports an error.  [renderReadme] cannot tell the two apart. *)
Definition neverFailing (G : Goldmark) : Goldmark :=
  {| md_Parse := @md_Parse G;
     md_Render := fun content doc =>
       Some (match @md_Render G content doc with
             | Some buf => buf
             | None => template.HTMLEscapeString content
             end) |}.

(** What [renderReadme] returns for a README that was read. *)
Definition readmeOrEscaped `{!Strings.Casing} `{!Goldmark} (content relDir : string)
    : template.HTML :=
  match md_Render content (rewrittenDoc content relDir) with
  | Some buf => buf
  | None => template.HTMLEscapeString content
  end.

(** The three sections the repository's test expects for [scenarioRoot]. *)
Definition scenarioSections `{!Strings.Casing} `{!Goldmark} : list Section :=
  [ {| sec_Name := General;
       sec_Documents :=
         [ {| doc_Name := "root.pdf"; doc_URL := "/docs/root.pdf" |} ];
       sec_Readme := "" |};
    {| sec_Name := "HR";
       sec_Documents :=
         [ {| doc_Name := "hiring.pdf"; doc_URL := "/docs/HR/hiring.pdf" |} ];
       sec_Readme := readmeOrEscaped "# HR Section" "HR" |};
    {| sec_Name := "HR/2025";
       sec_Documents :=
         [ {| doc_Name := "plan.pdf"; doc_URL := "/docs/HR/2025/plan.pdf" |} ];
       sec_Readme := readmeOrEscaped "# HR 2025" "HR/2025" |} ].

(** A root with nothing in it, a root with one PDF, and a root path that
    names a regular file. *)
Definition emptyRoot : Entry := Dir "docs" [] false.

Definition onePdfRoot : Entry :=
  Dir "docs" [File "doc1.pdf" (Some "pdf")] false.

Definition fileAsRoot : Entry := File "docs" (Some "not a directory").

(** A repository that holds one section, stored at time 100, TTL 60. *)
Definition warmRepository : DocRepository :=
  {| dir := "docs";
     cache := [ {| sec_Name := General;
                   sec_Documents :=
                     [ {| doc_Name := "doc1.pdf"; doc_URL := "/docs/doc1.pdf" |} ];
                   sec_Readme := "" |} ];
     cacheTime := 100;
     ttl := 60 |}.

Definition at_ (t : Z) : Clock := {| atRLock := t; atLock := t; atStore := t |}.

(** ** Well-formed trees *)

(** A name as a file system hands it out: not empty, not ["."], and
    without a separator. *)
Definition noSeparator (n : string) : bool :=
  match filepath.beforeLastSeparator n with
  | None => true
  | Some _ => false
  end.

Definition validName (n : string) : bool :=
  negb (String.eqb n "") && negb (String.eqb n ".") && noSeparator n.

Fixpoint validTree (d : Entry) : bool :=
  match d with
  | File _ _ => true
  | Dir _ es _ =>
      forallb (fun d1 => validName (Entry_Name d1) && validTree d1) es
  end.

(** [dirAt root path es]: following the names of [path] down from [root]
    leads to a directory whose entries are [es]. *)
Inductive dirAt : Entry -> list string -> list Entry -> Prop :=
| dirAt_here n es e : dirAt (Dir n es e) [] es
| dirAt_below n es e d path es' :
    d ∈ es -> dirAt d path es' ->
    dirAt (Dir n es e) (Entry_Name d :: path) es'.

(** The document a PDF directly under the root becomes. *)
Definition pdfDocument `{!Strings.Casing} (d : Entry) : option Document :=
  match d with
  | File n _ =>
      if Strings.HasSuffix (Strings.ToLower n) ".pdf"
      then Some {| doc_Name := n; doc_URL := "/docs/" +:+ n |}
      else None
  | Dir _ _ _ => None
  end.

Definition rootPdfs `{!Strings.Casing} (root : Entry) : list Document :=
  match root with
  | Dir _ es _ => omap pdfDocument es
  | File _ _ => []
  end.

Definition validPath (path : list string) : Prop :=
  Forall (fun n => validName n = true) path.

(** The section is named after a directory below the root, and its
    documents are regular files directly inside that directory. *)
Definition listsOwnFiles (root : Entry) (s : Section) : Prop :=
  exists path,
    path <> [] /\ validPath path /\ sec_Name s = filepath.Join path
    /\ (exists es, dirAt root path es)
    /\ forall doc, doc ∈ sec_Documents s ->
         exists es content,
           dirAt root path es /\ File (doc_Name doc) content ∈ es
           /\ doc_URL doc = "/docs/" +:+ sec_Name s +:+ "/" +:+ doc_Name doc.

(** The documents of [s] are regular files directly under the root. *)
Definition listsRootFiles (root : Entry) (s : Section) : Prop :=
  forall doc, doc ∈ sec_Documents s ->
    exists es content,
      dirAt root [] es /\ File (doc_Name doc) content ∈ es
      /\ doc_URL doc = "/docs/" +:+ doc_Name doc.

Definition byLowerName `{!Strings.Casing} (a b : Document) : Prop :=
  String.le (Strings.ToLower (doc_Name a)) (Strings.ToLower (doc_Name b)).

(** A root with a README next to a PDF, and the same root without it. *)
Definition rootWithReadme : Entry :=
  Dir "docs" ([] ++ File "ReadMe.MD" (Some "# Top") :: [File "a.pdf" (Some "pdf")]) false.

Definition rootWithoutReadme : Entry :=
  Dir "docs" ([] ++ [File "a.pdf" (Some "pdf")]) false.

(** A tree in which the order of [os.ReadDir] (byte-wise, so capitals
    first) is not the order of the lower-cased names, with Latin and
    Russian names, and what [scan] is to make of it. *)
Definition sortingRoot : Entry :=
  Dir "docs"
    [ File "B.pdf" (Some "pdf");
      Dir "Zeta" [ File "memo.pdf" (Some "pdf") ] false;
      File "a.pdf" (Some "pdf");
      Dir "alpha" [ File "Q2.pdf" (Some "pdf"); File "q1.pdf" (Some "pdf") ] false;
      File "c.PDF" (Some "pdf");
      File "Я.pdf" (Some "pdf");
      File "а.pdf" (Some "pdf") ] false.

Definition sortingSections : list Section :=
  [ {| sec_Name := General;
       sec_Documents :=
         [ {| doc_Name := "a.pdf"; doc_URL := "/docs/a.pdf" |};
           {| doc_Name := "B.pdf"; doc_URL := "/docs/B.pdf" |};
           {| doc_Name := "c.PDF"; doc_URL := "/docs/c.PDF" |};
           {| doc_Name := "а.pdf"; doc_URL := "/docs/а.pdf" |};
           {| doc_Name := "Я.pdf"; doc_URL := "/docs/Я.pdf" |} ];
       sec_Readme := "" |};
    {| sec_Name := "Zeta";
       sec_Documents :=
         [ {| doc_Name := "memo.pdf"; doc_URL := "/docs/Zeta/memo.pdf" |} ];
       sec_Readme := "" |};
    {| sec_Name := "alpha";
       sec_Documents :=
         [ {| doc_Name := "q1.pdf"; doc_URL := "/docs/alpha/q1.pdf" |};
           {| doc_Name := "Q2.pdf"; doc_URL := "/docs/alpha/Q2.pdf" |} ];
       sec_Readme := "" |} ].

(** A tree with a directory that cannot be read, a README that cannot be
    read and a PDF that cannot be read, and what [scan] is to make of it. *)
Definition damagedRoot : Entry :=
  Dir "docs"
    [ Dir "Broken" [] true;
      Dir "HR" [ File "README.md" None;
                 File "hiring.pdf" None ] false;
      File "root.pdf" (Some "pdf content") ] false.

Definition damagedSections : list Section :=
  [ {| sec_Name := General;
       sec_Documents :=
         [ {| doc_Name := "root.pdf"; doc_URL := "/docs/root.pdf" |} ];
       sec_Readme := "" |};
    {| sec_Name := "HR";
       sec_Documents :=
         [ {| doc_Name := "hiring.pdf"; doc_URL := "/docs/HR/hiring.pdf" |} ];
       sec_Readme := "" |} ].

(** ** Induction over the nested trees *)

Section NodeInduction.
Variable P : ast.Node -> Prop.
Hypothesis step : forall k cs, Forall P cs -> P (ast.MkNode k cs).

Fixpoint Node_tree_ind (n : ast.Node) : P n :=
  match n with
  | ast.MkNode k cs =>
      step k cs
        ((fix all (l : list ast.Node) : Forall P l :=
            match l with
            | [] => @Stdlib.Lists.List.Forall_nil _ P
            | c :: l' =>
                @Stdlib.Lists.List.Forall_cons _ P c l' (Node_tree_ind c) (all l')
            end) cs)
  end.
End NodeInduction.

Section EntryInduction.
Variable P : Entry -> Prop.
Hypothesis file_case : forall n c, P (File n c).
Hypothesis dir_case : forall n es e, Forall P es -> P (Dir n es e).

Fixpoint Entry_tree_ind (d : Entry) : P d :=
  match d with
  | File n c => file_case n c
  | Dir n es e =>
      dir_case n es e
        ((fix all (l : list Entry) : Forall P l :=
            match l with
            | [] => @Stdlib.Lists.List.Forall_nil _ P
            | c :: l' =>
                @Stdlib.Lists.List.Forall_cons _ P c l' (Entry_tree_ind c) (all l')
            end) es)
  end.
End EntryInduction.

(** ** The state of the walk, seen from a directory *)

(** The accumulator of directory [k], made on first use. *)
Definition accumulator (k : string) (st : ScanState) : Section :=
  default {| sec_Name := filepath.ToSlash k; sec_Documents := []; sec_Readme := "" |}
    (sectionsMap st !! k).

Definition withAccumulator (k : string) (st : ScanState) : ScanState :=
  match sectionsMap st !! k with
  | Some _ => st
  | None => storeSection k (accumulator k st) st
  end.

(** Every accumulator is stored under its own name and lists files of
    its own directory only. *)
Definition accumulatorsOwn (root : Entry) (st : ScanState) : Prop :=
  forall k sec, sectionsMap st !! k = Some sec ->
    sec_Name sec = k /\ listsOwnFiles root sec.

(** * What the walk collects, and callers in a row *)

(** ** What the walk has collected *)

(** [doc] is among the documents stored under key [k]. *)
Definition listedUnder (st : ScanState) (k : string) (doc : Document) : Prop :=
  exists sec, sectionsMap st !! k = Some sec /\ doc ∈ sec_Documents sec.

(** The readme of [s] is empty, or it is what [renderReadme] makes of a
    readable file named readme.md, in some letter case, directly inside the
    directory the section is named after. *)
Definition readmeFromOwnDir `{!Strings.Casing} `{!Goldmark} (root : Entry)
    (s : Section) : Prop :=
  sec_Readme s = ""
  \/ exists path es n c,
       path <> [] /\ dirAt root path es /\ sec_Name s = filepath.Join path
       /\ File n (Some c) ∈ es /\ Strings.ToLower n = "readme.md"
       /\ sec_Readme s = readmeOrEscaped c (sec_Name s).

Definition readmesFromOwnDir `{!Strings.Casing} `{!Goldmark} (root : Entry)
    (st : ScanState) : Prop :=
  forall k sec, sectionsMap st !! k = Some sec ->
    sec_Name sec = k /\ readmeFromOwnDir root sec.

(** The bytes [HTMLEscapeString] replaces. *)
Definition needsEscape (c : ascii) : bool :=
  Ascii.eqb c "000"%char || Ascii.eqb c "034"%char || Ascii.eqb c "039"%char
  || Ascii.eqb c "&"%char || Ascii.eqb c "<"%char || Ascii.eqb c ">"%char.

Fixpoint bytes (s : string) : list ascii :=
  match s with
  | EmptyString => []
  | String c s' => c :: bytes s'
  end.

(** The bytes that open or close markup or a quoted attribute. *)
Definition markupByte (c : ascii) : bool :=
  Ascii.eqb c "000"%char || Ascii.eqb c "034"%char || Ascii.eqb c "039"%char
  || Ascii.eqb c "<"%char || Ascii.eqb c ">"%char.

(** ** Callers at the locks *)

(** Callers that take their turns one after the other: each reads the
    clock no earlier than the one before stored, and no earlier than [t]. *)
Fixpoint inTurn (t : Z) (cs : list (FS * Clock)) : Prop :=
  match cs with
  | [] => True
  | (_, clk) :: cs' => t <= atRLock clk /\ ticks clk /\ inTurn (atStore clk) cs'
  end.

Section Herd.
Context `{!Strings.Casing} `{!Goldmark} `{!GoSort}.

(** Callers that all found the cache stale under the read lock and now
    pass the write lock one after the other. *)
Fixpoint queued (r : DocRepository) (cs : list (FS * Clock))
    : list (result (list Section)) * DocRepository * nat :=
  match cs with
  | [] => ([], r, O)
  | (fs, clk) :: cs' =>
      let o := underLock r fs clk in
      let '(rs, r', n) := queued (repo o) cs' in
      (returned o :: rs, r', (scans o + n)%nat)
  end.

End Herd.

(** * The callers: configuration, HTTP handlers, access log *)

(** ** Configuration *)

(** Durations are integers (nanoseconds), as [time.Duration] is. *)
Definition Second : Z := 1000000000.
Definition Minute : Z := 60 * Second.

Record Config := {
  DocsDir : string;
  Port : string;
  CacheTTL : Z;
  ReadTimeout : Z;
  WriteTimeout : Z;
  IdleTimeout : Z;
  ReadHeaderTimeout : Z;
  LogFile : string
}.

Record yamlConfig := {
  y_DocsDir : string;
  y_Port : string;
  y_CacheTTL : string;
  y_ReadTimeout : string;
  y_WriteTimeout : string;
  y_IdleTimeout : string;
  y_ReadHeaderTimeout : string;
  y_LogFile : string
}.

Definition DefaultConfig : Config :=
  {| DocsDir := "./docs"; Port := "8080"; CacheTTL := 5 * Minute;
     ReadTimeout := 15 * Second; WriteTimeout := 15 * Second;
     IdleTimeout := 60 * Second; ReadHeaderTimeout := 5 * Second;
     LogFile := "access.log" |}.

Inductive ConfigError :=
| ErrReadConfig                       (* "read config file ..." *)
| ErrParseConfig                      (* "parse config file ..." *)
| ErrInvalidDuration (name : string). (* "invalid duration for <name> ..." *)

(** What [os.ReadFile] of the config path gives. *)
Inductive ReadOutcome :=
| NotExist
| ReadFailed
| Data (data : string).

Section LoadConfig.
(** [yaml.Unmarshal] into a zero [yamlConfig], and [time.ParseDuration]. *)
Variable yaml_Unmarshal : string -> option yamlConfig.
Variable ParseDuration : string -> option Z.

Definition parseDurationField (name value : string) : Z * option ConfigError :=
  match ParseDuration value with
  | Some d => (d, None)
  | None => (0, Some (ErrInvalidDuration name))
  end.

Definition setDocsDir (v : string) (c : Config) : Config :=
  {| DocsDir := v; Port := Port c; CacheTTL := CacheTTL c;
     ReadTimeout := ReadTimeout c; WriteTimeout := WriteTimeout c;
     IdleTimeout := IdleTimeout c; ReadHeaderTimeout := ReadHeaderTimeout c;
     LogFile := LogFile c |}.

Definition setPort (v : string) (c : Config) : Config :=
  {| DocsDir := DocsDir c; Port := v; CacheTTL := CacheTTL c;
     ReadTimeout := ReadTimeout c; WriteTimeout := WriteTimeout c;
     IdleTimeout := IdleTimeout c; ReadHeaderTimeout := ReadHeaderTimeout c;
     LogFile := LogFile c |}.

Definition setLogFile (v : string) (c : Config) : Config :=
  {| DocsDir := DocsDir c; Port := Port c; CacheTTL := CacheTTL c;
     ReadTimeout := ReadTimeout c; WriteTimeout := WriteTimeout c;
     IdleTimeout := IdleTimeout c; ReadHeaderTimeout := ReadHeaderTimeout c;
     LogFile := v |}.

Definition setCacheTTL (v : Z) (c : Config) : Config :=
  {| DocsDir := DocsDir c; Port := Port c; CacheTTL := v;
     ReadTimeout := ReadTimeout c; WriteTimeout := WriteTimeout c;
     IdleTimeout := IdleTimeout c; ReadHeaderTimeout := ReadHeaderTimeout c;
     LogFile := LogFile c |}.

Definition setReadTimeout (v : Z) (c : Config) : Config :=
  {| DocsDir := DocsDir c; Port := Port c; CacheTTL := CacheTTL c;
     ReadTimeout := v; WriteTimeout := WriteTimeout c;
     IdleTimeout := IdleTimeout c; ReadHeaderTimeout := ReadHeaderTimeout c;
     LogFile := LogFile c |}.

Definition setWriteTimeout (v : Z) (c : Config) : Config :=
  {| DocsDir := DocsDir c; Port := Port c; CacheTTL := CacheTTL c;
     ReadTimeout := ReadTimeout c; WriteTimeout := v;
     IdleTimeout := IdleTimeout c; ReadHeaderTimeout := ReadHeaderTimeout c;
     LogFile := LogFile c |}.

Definition setIdleTimeout (v : Z) (c : Config) : Config :=
  {| DocsDir := DocsDir c; Port := Port c; CacheTTL := CacheTTL c;
     ReadTimeout := ReadTimeout c; WriteTimeout := WriteTimeout c;
     IdleTimeout := v; ReadHeaderTimeout := ReadHeaderTimeout c;
     LogFile := LogFile c |}.

Definition setReadHeaderTimeout (v : Z) (c : Config) : Config :=
  {| DocsDir := DocsDir c; Port := Port c; CacheTTL := CacheTTL c;
     ReadTimeout := ReadTimeout c; WriteTimeout := WriteTimeout c;
     IdleTimeout := IdleTimeout c; ReadHeaderTimeout := v;
     LogFile := LogFile c |}.

(** One [if yc.X != "" { cfg.X, perr = parseDurationField(...); if perr !=
    nil { return cfg, perr } }]: the field is assigned also when the value
    does not parse (then with 0), and the rest runs only without error. *)
Definition durationStep (name value : string) (set : Z -> Config -> Config)
    (rest : Config -> Config * option ConfigError) (cfg : Config)
    : Config * option ConfigError :=
  if String.eqb value "" then rest cfg
  else
    let '(d, perr) := parseDurationField name value in
    let cfg := set d cfg in
    match perr with
    | Some e => (cfg, Some e)
    | None => rest cfg
    end.

Definition LoadConfig (file : ReadOutcome) : Config * option ConfigError :=
  let cfg := DefaultConfig in
  match file with
  | NotExist => (cfg, None)
  | ReadFailed => (cfg, Some ErrReadConfig)
  | Data data =>
      match yaml_Unmarshal data with
      | None => (cfg, Some ErrParseConfig)
      | Some yc =>
          let cfg := if String.eqb (y_DocsDir yc) "" then cfg
                     else setDocsDir (y_DocsDir yc) cfg in
          let cfg := if String.eqb (y_Port yc) "" then cfg
                     else setPort (y_Port yc) cfg in
          let cfg := if String.eqb (y_LogFile yc) "" then cfg
                     else setLogFile (y_LogFile yc) cfg in
          durationStep "cache_ttl" (y_CacheTTL yc) setCacheTTL
            (durationStep "read_timeout" (y_ReadTimeout yc) setReadTimeout
               (durationStep "write_timeout" (y_WriteTimeout yc) setWriteTimeout
                  (durationStep "idle_timeout" (y_IdleTimeout yc) setIdleTimeout
                     (durationStep "read_header_timeout" (y_ReadHeaderTimeout yc)
                        setReadHeaderTimeout (fun cfg => (cfg, None))))))
            cfg
      end
  end.

(** [main]: the config, then the [-dir] and [-port] flags on top of it
    when they are not empty. *)
Definition applyOverrides (docsDirOverride portOverride : string) (cfg : Config)
    : Config :=
  let cfg := if String.eqb docsDirOverride "" then cfg
             else setDocsDir docsDirOverride cfg in
  if String.eqb portOverride "" then cfg else setPort portOverride cfg.

End LoadConfig.

(** The values a duration field of the file can end up with. *)
Definition durationOf (ParseDuration : string -> option Z) (value : string)
    (default : Z) : Z :=
  if String.eqb value "" then default
  else match ParseDuration value with Some d => d | None => 0 end.

Definition parses (ParseDuration : string -> option Z) (value : string) : Prop :=
  value = "" \/ exists d, ParseDuration value = Some d.

Definition stringOf (value default : string) : string :=
  if String.eqb value "" then default else value.

(** The duration fields of the file in the order [LoadConfig] goes through
    them, each with the name the error message has for it. *)
Definition durationFields (yc : yamlConfig) : list (string * string) :=
  [ ("cache_ttl", y_CacheTTL yc); ("read_timeout", y_ReadTimeout yc);
    ("write_timeout", y_WriteTimeout yc); ("idle_timeout", y_IdleTimeout yc);
    ("read_header_timeout", y_ReadHeaderTimeout yc) ].

(** The name of the first field that is there and does not parse. *)
Fixpoint firstInvalid (ParseDuration : string -> option Z)
    (fields : list (string * string)) : option string :=
  match fields with
  | [] => None
  | (name, value) :: fields' =>
      if String.eqb value "" then firstInvalid ParseDuration fields'
      else match ParseDuration value with
           | Some _ => firstInvalid ParseDuration fields'
           | None => Some name
           end
  end.

(** The configuration [main] runs with when nothing fails: a flag before
    the value of the file, that before the default. *)
Definition effectiveConfig (ParseDuration : string -> option Z)
    (docsDirOverride portOverride : string) (yc : yamlConfig) : Config :=
  {| DocsDir := stringOf docsDirOverride (stringOf (y_DocsDir yc) "./docs");
     Port := stringOf portOverride (stringOf (y_Port yc) "8080");
     CacheTTL := durationOf ParseDuration (y_CacheTTL yc) (5 * Minute);
     ReadTimeout := durationOf ParseDuration (y_ReadTimeout yc) (15 * Second);
     WriteTimeout := durationOf ParseDuration (y_WriteTimeout yc) (15 * Second);
     IdleTimeout := durationOf ParseDuration (y_IdleTimeout yc) (60 * Second);
     ReadHeaderTimeout :=
       durationOf ParseDuration (y_ReadHeaderTimeout yc) (5 * Second);
     LogFile := stringOf (y_LogFile yc) "access.log" |}.

(** Stand-ins for [yaml.Unmarshal] and [time.ParseDuration] that know the
    files and the durations of the examples. *)
Definition docsDirYaml : yamlConfig :=
  {| y_DocsDir := "/srv/docs"; y_Port := ""; y_CacheTTL := "10m";
     y_ReadTimeout := ""; y_WriteTimeout := ""; y_IdleTimeout := "";
     y_ReadHeaderTimeout := ""; y_LogFile := "" |}.

Definition badTimeoutsYaml : yamlConfig :=
  {| y_DocsDir := "/srv/docs"; y_Port := ""; y_CacheTTL := "10m";
     y_ReadTimeout := ""; y_WriteTimeout := "soon"; y_IdleTimeout := "later";
     y_ReadHeaderTimeout := ""; y_LogFile := "" |}.

Definition exampleUnmarshal (data : string) : option yamlConfig :=
  if String.eqb data "docs_dir: /srv/docs" then Some docsDirYaml
  else if String.eqb data "write_timeout: soon" then Some badTimeoutsYaml
  else None.

Definition exampleParseDuration (value : string) : option Z :=
  if String.eqb value "10m" then Some (10 * Minute)
  else if String.eqb value "1s" then Some Second
  else None.

(** ** [net/http]: what a handler does with its [ResponseWriter] *)

Module http.

Definition StatusOK : Z := 200.
Definition StatusNotFound : Z := 404.
Definition StatusInternalServerError : Z := 500.

(** The calls a handler makes on the writer: [w.Header().Set],
    [w.WriteHeader], [w.Write]. *)
Inductive Call :=
| SetHeader (key value : string)
| WriteHeader (statusCode : Z)
| WriteBytes (p : string).

(** The fields of the request the handlers read. *)
Record Request := {
  Method : string;
  Path : string;          (* r.URL.Path *)
  RequestURI : string;    (* r.URL.RequestURI() *)
  Proto : string;
  RemoteAddr : string;
  Referer : string;
  UserAgent : string
}.

(** What is sent, as [httptest.ResponseRecorder] records it: the status is
    that of the first [WriteHeader], or 200 when [Write] comes first or
    nothing is written at all; headers set after that are not sent. *)
Record ResponseRecorder := {
  Code : Z;
  wroteHeader : bool;
  HeaderMap : gmap string string;
  Body : string
}.

Definition NewRecorder : ResponseRecorder :=
  {| Code := 200; wroteHeader := false; HeaderMap := ∅; Body := "" |}.

(** One call on the recorder, with the byte count [Write] returns. *)
Definition record (c : Call) (w : ResponseRecorder) : ResponseRecorder * Z :=
  match c with
  | SetHeader k v =>
      (if wroteHeader w then w
       else {| Code := Code w; wroteHeader := false;
               HeaderMap := <[k := v]> (HeaderMap w); Body := Body w |}, 0)
  | WriteHeader code =>
      (if wroteHeader w then w
       else {| Code := code; wroteHeader := true;
               HeaderMap := HeaderMap w; Body := Body w |}, 0)
  | WriteBytes p =>
      ({| Code := if wroteHeader w then Code w else StatusOK;
          wroteHeader := true;
          HeaderMap := HeaderMap w; Body := Body w +:+ p |},
       Z.of_nat (String.length p))
  end.

(** [http.Error]: two headers, the status, the message and a newline.
    (It also deletes a Content-Length header, which no handler here sets.) *)
Definition Error (error : string) (code : Z) : list Call :=
  [ SetHeader "Content-Type" "text/plain; charset=utf-8";
    SetHeader "X-Content-Type-Options" "nosniff";
    WriteHeader code;
    WriteBytes (error +:+ String "010"%char EmptyString) ].

Definition NotFound : list Call := Error "404 page not found" StatusNotFound.

Definition isWriteHeader (c : Call) : bool :=
  match c with WriteHeader _ => true | _ => false end.

Definition isWriteBytes (c : Call) : bool :=
  match c with WriteBytes _ => true | _ => false end.

End http.

(** Running the calls of a handler on a writer whose single calls are
    [call].  A handler is taken by the calls it makes; of what [Write]
    returns the byte count is kept, the error is not. *)
Definition serveOn {W : Type} (call : http.Call -> W -> W * Z)
    (calls : list http.Call) (w : W) : W :=
  foldl (fun w c => (call c w).1) w calls.

(** The byte counts the writer returned for the [Write]s among the calls,
    added up. *)
Fixpoint writtenOn {W : Type} (call : http.Call -> W -> W * Z)
    (calls : list http.Call) (w : W) : Z :=
  match calls with
  | [] => 0
  | c :: calls' =>
      (if http.isWriteBytes c then (call c w).2 else 0)
      + writtenOn call calls' (call c w).1
  end.

(** ** [loggingResponseWriter] *)

Record loggingResponseWriter (W : Type) := {
  ResponseWriter : W;
  status : Z;
  bytes_ : Z
}.
Arguments ResponseWriter {W} _.
Arguments status {W} _.
Arguments bytes_ {W} _.

Section Logging.
Variable W : Type.
Variable call : http.Call -> W -> W * Z.
(** [net.SplitHostPort], giving the host when the address splits. *)
Variable SplitHostPort : string -> option string.

(** The methods of the wrapper: [Header] is the embedded writer's,
    [WriteHeader] and [Write] are its own. *)
Definition lrw_call (c : http.Call) (lrw : loggingResponseWriter W)
    : loggingResponseWriter W * Z :=
  match c with
  | http.SetHeader _ _ =>
      let '(w, n) := call c (ResponseWriter lrw) in
      ({| ResponseWriter := w; status := status lrw; bytes_ := bytes_ lrw |}, n)
  | http.WriteHeader statusCode =>
      let '(w, n) := call c (ResponseWriter lrw) in
      ({| ResponseWriter := w; status := statusCode; bytes_ := bytes_ lrw |}, n)
  | http.WriteBytes p =>
      let status' := if status lrw =? 0 then http.StatusOK else status lrw in
      let '(w, n) := call c (ResponseWriter lrw) in
      ({| ResponseWriter := w; status := status'; bytes_ := bytes_ lrw + n |}, n)
  end.

(** The arguments of the access log's [Printf], before formatting. *)
Record AccessEntry := {
  e_remote : string;
  e_method : string;
  e_uri : string;
  e_proto : string;
  e_status : Z;
  e_bytes : Z;
  e_referer : string;
  e_agent : string;
  e_duration : Z
}.

(** [loggingMiddleware(next)] serving [r]: [next] makes its calls on the
    wrapper, then the request is logged unless there is no access log or the
    path is /healthz.  [elapsed] is [time.Since(start)]. *)
Definition loggingMiddleware (next : http.Request -> list http.Call)
    (accessLog : option (list AccessEntry)) (r : http.Request) (elapsed : Z)
    (w : W) : W * option (list AccessEntry) :=
  let lrw := {| ResponseWriter := w; status := 0; bytes_ := 0 |} in
  let lrw := serveOn lrw_call (next r) lrw in
  match accessLog with
  | None => (ResponseWriter lrw, None)
  | Some lines =>
      if String.eqb (http.Path r) "/healthz" then (ResponseWriter lrw, Some lines)
      else
        let remote :=
          match SplitHostPort (http.RemoteAddr r) with
          | Some host => host
          | None => http.RemoteAddr r
          end in
        (ResponseWriter lrw,
         Some (lines ++
           [{| e_remote := remote; e_method := http.Method r;
               e_uri := http.RequestURI r; e_proto := http.Proto r;
               e_status := status lrw; e_bytes := bytes_ lrw;
               e_referer := http.Referer r; e_agent := http.UserAgent r;
               e_duration := elapsed |}]))
  end.

End Logging.

(** ** The handlers of [Start] *)

(** [healthHandler(docsDir)], over the file system of the moment. *)
Definition healthHandler (docsDir : string) (fs : FS) : list http.Call :=
  match os_Stat fs docsDir with
  | None => http.Error "docs directory is not accessible" http.StatusInternalServerError
  | Some _ =>
      [ http.SetHeader "Content-Type" "text/plain; charset=utf-8";
        http.WriteBytes "ok" ]
  end.

Inductive StdLog :=
| ErrorGettingSections (err : GoError)
| ErrorExecutingTemplate.

(** What serving one request of the index handler comes to: the calls on
    the writer, the repository afterwards, whether [scan] ran, the lines
    for the standard logger. *)
Record Served := {
  sv_calls : list http.Call;
  sv_repo : DocRepository;
  sv_scans : nat;
  sv_log : list StdLog
}.

Section Index.
Context `{!Strings.Casing} `{!Goldmark} `{!GoSort}.
(** [tmpl.Execute(w, sections)]: the pieces it writes, and whether it
    reports an error. *)
Variable tmpl_Execute : list Section -> list string * bool.

Definition indexHandler (rp : DocRepository) (fs : FS) (clk : Clock)
    (r : http.Request) : Served :=
  if negb (String.eqb (http.Path r) "/") then
    {| sv_calls := http.NotFound; sv_repo := rp; sv_scans := 0; sv_log := [] |}
  else
    let o := GetSections rp fs clk in
    match returned o with
    | Err err =>
        {| sv_calls := http.Error "Could not load documents"
                         http.StatusInternalServerError;
           sv_repo := repo o; sv_scans := scans o;
           sv_log := [ErrorGettingSections err] |}
    | Ok sections =>
        let '(pieces, failed) := tmpl_Execute sections in
        {| sv_calls := http.SetHeader "Content-Type" "text/html"
                       :: (http.WriteBytes <$> pieces);
           sv_repo := repo o; sv_scans := scans o;
           sv_log := if failed then [ErrorExecutingTemplate] else [] |}
    end.

End Index.

(** A handler's calls are in order when the handler writes something and
    sets the status at most once, before it writes, to a code [net/http]
    takes (100 to 999; [WriteHeader] panics on another one). *)
Fixpoint orderly (calls : list http.Call) : bool :=
  match calls with
  | [] => false
  | http.SetHeader _ _ :: calls' => orderly calls'
  | http.WriteHeader statusCode :: calls' =>
      (100 <=? statusCode) && (statusCode <=? 999)
      && forallb (fun c => negb (http.isWriteHeader c)) calls'
  | http.WriteBytes _ :: calls' =>
      forallb (fun c => negb (http.isWriteHeader c)) calls'
  end.

(** The wrapper of [loggingMiddleware] before the handler runs. *)
Definition newLoggingResponseWriter {W : Type} (w : W) : loggingResponseWriter W :=
  {| ResponseWriter := w; status := 0; bytes_ := 0 |}.

(** What the recorder has after the calls of a handler. *)
Definition recorded (calls : list http.Call) : http.ResponseRecorder :=
  serveOn http.record calls http.NewRecorder.

(** [net.SplitHostPort] for the examples: the address up to its last colon. *)
Definition exampleSplitHostPort (addr : string) : option string :=
  if String.eqb addr "10.0.0.7:51234" then Some "10.0.0.7" else None.

Definition exampleRequest (path : string) : http.Request :=
  {| http.Method := "GET"; http.Path := path; http.RequestURI := path;
     http.Proto := "HTTP/1.1"; http.RemoteAddr := "10.0.0.7:51234";
     http.Referer := ""; http.UserAgent := "curl/8.0" |}.

(** A template for the examples: one piece for each section. *)
Definition exampleTemplate (sections : list Section) : list string * bool :=
  (sec_Name <$> sections, false).

(** ** The rotating access log *)

(** The writer's mutex makes [Write] and [Close] atomic: the calls are
    modelled one after the other, each on the disk the one before left. *)

Inductive LogError :=
| ErrOpen        (* os.OpenFile failed *)
| ErrFileStat    (* f.Stat failed *)
| ErrRename      (* "failed to rename log file" *)
| ErrInvalid     (* a method of a nil *os.File *)
| ErrNoSpace.    (* a short write *)

(** The disk as the writer sees it: the files, the free space, and the
    paths on which a system call fails (why is not the writer's business):
    [blocked] cannot be opened, [blind] cannot be statted once open,
    [pinned] cannot be renamed. *)
Record Disk := {
  files : gmap string string;
  space : nat;
  blocked : gset string;
  blind : gset string;
  pinned : gset string;
  stderr : list LogError
}.

(** [file] tells whether the handle is there (not nil).  While it is, it
    is the handle of the file at [filename]: the writer closes it before it
    renames the file. *)
Record rotatingWriter := {
  filename : string;
  maxSize : Z;
  file : bool;
  size : Z
}.

Definition maxLogSizeBytes : Z := 10 * 1024 * 1024.

Definition withFiles (fm : gmap string string) (d : Disk) : Disk :=
  {| files := fm; space := space d; blocked := blocked d; blind := blind d;
     pinned := pinned d; stderr := stderr d |}.

(** [os.OpenFile(name, O_CREATE|O_WRONLY|O_APPEND, 0644)]: makes the file
    when it is not there. *)
Definition os_OpenFile (name : string) (d : Disk) : option LogError * Disk :=
  if decide (name ∈ blocked d) then (Some ErrOpen, d)
  else match files d !! name with
       | Some _ => (None, d)
       | None => (None, withFiles (<[name := ""]> (files d)) d)
       end.

(** [os.Rename]: fails when the old path is not there; replaces what is at
    the new path. *)
Definition os_Rename (old new : string) (d : Disk) : option LogError * Disk :=
  if decide (old ∈ pinned d) then (Some ErrRename, d)
  else match files d !! old with
       | None => (Some ErrRename, d)
       | Some content =>
           (None, withFiles (<[new := content]> (delete old (files d))) d)
       end.

(** [f.Write(p)] on the handle of [name], opened for appending: as many
    bytes as there is space for. *)
Definition file_Write (name : string) (p : string) (d : Disk)
    : nat * option LogError * Disk :=
  let n := Nat.min (String.length p) (space d) in
  let taken := String.substring 0 n p in
  (n, if (n <? String.length p)%nat then Some ErrNoSpace else None,
   {| files := alter (fun content => content +:+ taken) name (files d);
      space := space d - n; blocked := blocked d; blind := blind d;
      pinned := pinned d; stderr := stderr d |}).

(** [open]: called with a nil handle only. *)
Definition rw_open (rw : rotatingWriter) (d : Disk)
    : option LogError * rotatingWriter * Disk :=
  match os_OpenFile (filename rw) d with
  | (Some err, d) => (Some err, rw, d)
  | (None, d) =>
      if decide (filename rw ∈ blind d) then (Some ErrFileStat, rw, d)
      else
        let info_Size :=
          match files d !! filename rw with
          | Some content => Z.of_nat (String.length content)
          | None => 0
          end in
        (None, {| filename := filename rw; maxSize := maxSize rw;
                  file := true; size := info_Size |}, d)
  end.

Definition newRotatingWriter (filename : string) (maxSize : Z) (d : Disk)
    : option LogError * option rotatingWriter * Disk :=
  let rw := {| filename := filename; maxSize := maxSize; file := false; size := 0 |} in
  match rw_open rw d with
  | (Some err, _, d) => (Some err, None, d)
  | (None, rw, d) => (None, Some rw, d)
  end.

Definition rotatedName (filename timestamp : string) : string :=
  filename +:+ "." +:+ timestamp.

(** [rotate]; [timestamp] is [time.Now().Format("20060102-150405")]. *)
Definition rw_rotate (timestamp : string) (rw : rotatingWriter) (d : Disk)
    : option LogError * rotatingWriter * Disk :=
  let rw := {| filename := filename rw; maxSize := maxSize rw;
               file := false; size := size rw |} in
  match os_Rename (filename rw) (rotatedName (filename rw) timestamp) d with
  | (Some err, d) => (Some err, rw, d)
  | (None, d) => rw_open rw d
  end.

(** [Write]: the number of bytes written and the error, the writer and
    the disk afterwards. *)
Definition rw_Write (p : string) (timestamp : string) (rw : rotatingWriter)
    (d : Disk) : nat * option LogError * rotatingWriter * Disk :=
  let opened :=
    if file rw then (None, rw, d) else rw_open rw d in
  match opened with
  | (Some err, rw, d) => (O, Some err, rw, d)
  | (None, rw, d) =>
      let '(rw, d) :=
        if size rw + Z.of_nat (String.length p) >? maxSize rw then
          match rw_rotate timestamp rw d with
          | (Some err, rw, d) =>
              (rw, {| files := files d; space := space d; blocked := blocked d;
                      blind := blind d; pinned := pinned d;
                      stderr := stderr d ++ [err] |})
          | (None, rw, d) => (rw, d)
          end
        else (rw, d) in
      if file rw then
        let '(n, err, d) := file_Write (filename rw) p d in
        (n, err, {| filename := filename rw; maxSize := maxSize rw;
                    file := true; size := size rw + Z.of_nat n |}, d)
      else (O, Some ErrInvalid, rw, d)
  end.

Definition rw_Close (rw : rotatingWriter) : rotatingWriter :=
  {| filename := filename rw; maxSize := maxSize rw; file := false;
     size := size rw |}.

(** The size the writer keeps is the length of the log file. *)
Definition tracksSize (rw : rotatingWriter) (d : Disk) : Prop :=
  file rw = true ->
  exists content, files d !! filename rw = Some content
                  /\ size rw = Z.of_nat (String.length content).

(** A disk with room on which every system call succeeds. *)
Definition healthyDisk (fm : gmap string string) : Disk :=
  {| files := fm; space := 1000; blocked := ∅; blind := ∅; pinned := ∅;
     stderr := [] |}.

(** The log of [TestRotatingWriter] after its first two writes: the limit
    is 20 bytes and 20 bytes are in the file. *)
Definition fullWriter : rotatingWriter :=
  {| filename := "access.log"; maxSize := 20; file := true; size := 20 |}.

Definition fullDisk : Disk :=
  healthyDisk {[ "access.log" := "0123456789abcdefghij" ]}.

(** The same on a disk that does not let the log be renamed. *)
Definition pinnedDisk : Disk :=
  {| files := {[ "access.log" := "0123456789abcdefghij" ]}; space := 1000;
     blocked := ∅; blind := ∅; pinned := {[ "access.log" ]}; stderr := [] |}.

(** The content of the log file, empty when it is not there. *)
Definition logContent (rw : rotatingWriter) (d : Disk) : string :=
  default "" (files d !! filename rw).


(** * Properties *)

(** ** Strings *)

Lemma ToLower_byte_slash c :
  Ascii.eqb (Strings.ToLower_byte c) "/" = Ascii.eqb c "/".
Proof. destruct c as [[] [] [] [] [] [] [] []]; reflexivity. Qed.

Lemma HasPrefix_lowerASCII_slash u :
  Strings.HasPrefix (Strings.lowerASCII u) "/" = Strings.HasPrefix u "/".
Proof.
  destruct u as [|c u]; cbn [Strings.HasPrefix Strings.lowerASCII]; [done|].
  by rewrite ToLower_byte_slash.
Qed.

Lemma HasPrefix_lowerASCII_fold pattern : forall u,
  Strings.lowerASCII pattern = pattern ->
  Strings.HasPrefix (Strings.lowerASCII u) pattern = Strings.EqualFoldPrefix u pattern.
Proof.
  induction pattern as [|p pattern IH]; intros u Hp; [by destruct u|].
  simpl in Hp. injection Hp as Hp1 Hp2.
  destruct u as [|c u];
    cbn [Strings.HasPrefix Strings.lowerASCII Strings.EqualFoldPrefix]; [done|].
  rewrite Hp1. destruct (Ascii.eqb _ p); auto.
Qed.

(** A name whose lower case is a plain literal has it with its ASCII
    letters lowered, and the other way round. *)
Lemma ToLower_literal `{!Strings.Casing} s p :
  Strings.plain p = true -> Strings.ToLower s = p <-> Strings.lowerASCII s = p.
Proof.
  intros Hp. rewrite <- !String.eqb_eq. by rewrite Strings.ToLower_eqb.
Qed.

Lemma isRelativeURL_spec `{!Strings.Casing} u : isRelativeURL u = spec_relative u.
Proof.
  unfold isRelativeURL, spec_relative. cbv zeta.
  rewrite !Strings.ToLower_HasPrefix by reflexivity.
  rewrite HasPrefix_lowerASCII_slash, !HasPrefix_lowerASCII_fold by reflexivity.
  destruct (Strings.EqualFoldPrefix u "http://"
            || Strings.EqualFoldPrefix u "https://") eqn:E.
  - by rewrite andb_false_r.
  - by rewrite andb_true_r.
Qed.

Lemma string_app_assoc (a b c : string) : (a +:+ b) +:+ c = a +:+ b +:+ c.
Proof.
  induction a as [|x a IH]; simpl; [done|].
  unfold String.app in *. simpl. by rewrite IH.
Qed.

Lemma app_String c (a b : string) : String c a +:+ b = String c (a +:+ b).
Proof. done. Qed.

Lemma string_app_empty_r (a : string) : a +:+ "" = a.
Proof. induction a as [|c a IH]; [done|]. by rewrite app_String, IH. Qed.

(** ** The narrative renderer *)

Lemma Destinations_Walk visit (f : string -> string) :
  (forall d, visit (ast.KindImage d) = ast.KindImage (f d)) ->
  (forall d, visit (ast.KindLink d) = ast.KindLink (f d)) ->
  (forall t, visit (ast.KindOther t) = ast.KindOther t) ->
  forall n, ast.Destinations (ast.Walk visit n) = map f (ast.Destinations n).
Proof.
  intros Hi Hl Ho. induction n as [k cs IH] using Node_tree_ind. simpl.
  rewrite map_app. f_equal.
  - destruct k; by rewrite ?Hi, ?Hl, ?Ho.
  - induction IH as [|c cs Hc _ IHcs]; simpl; [done|].
    by rewrite map_app, Hc, IHcs.
Qed.

Section RendererFacts.
Context `{!Strings.Casing} `{!Goldmark}.

Lemma rewrite_spec relDir d :
  rewrite ("/docs/" +:+ relDir +:+ "/") d = spec_rewrite relDir d.
Proof.
  unfold rewrite, spec_rewrite. rewrite isRelativeURL_spec.
  destruct (spec_relative d); [|done]. by rewrite !string_app_assoc.
Qed.

Lemma Walk_ext visit visit' :
  (forall k, visit k = visit' k) ->
  forall n, ast.Walk visit n = ast.Walk visit' n.
Proof.
  intros Hv. induction n as [k cs IH] using Node_tree_ind.
  cbn [ast.Walk]. rewrite Hv. f_equal.
  induction IH as [|c cs Hc _ IHcs]; [done|]. cbn [map]. by rewrite Hc, IHcs.
Qed.

Lemma rewrittenDoc_spec content relDir :
  rewrittenDoc content relDir
  = ast.Walk (retarget (spec_rewrite relDir)) (md_Parse content).
Proof.
  unfold rewrittenDoc. cbv zeta. apply Walk_ext.
  intros [d|d|t]; cbn [rewriteNode retarget]; by rewrite ?rewrite_spec.
Qed.

(** C3: what [renderReadme] returns for a README that was read is what the
    renderer writes for the parsed tree in which the destination of every
    image and every link is ["/docs/" + sectionPath + "/" + reference] when
    the reference neither starts with a slash nor with http:// or https://
    in any letter case, and the reference itself otherwise, nothing else
    being changed (or the escaped text, when the renderer fails on that
    tree).  So for every renderer whose HTML shows the destinations of the
    tree it is given, each escaped its way, the HTML that [renderReadme]
    returns shows exactly these destinations. *)
Theorem rewritten_destinations (name content relDir : string) :
  let shown := ast.Walk (retarget (spec_rewrite relDir)) (md_Parse content) in
  renderReadme (File name (Some content)) relDir
  = Ok match md_Render content shown with
       | Some buf => buf
       | None => template.HTMLEscapeString content
       end
  /\ ast.Destinations shown
     = spec_rewrite relDir <$> ast.Destinations (md_Parse content)
  /\ forall (hrefs : string -> list string) (escape : string -> string) html,
       (forall doc buf, md_Render content doc = Some buf ->
          hrefs buf = escape <$> ast.Destinations doc) ->
       md_Render content shown = Some html ->
       renderReadme (File name (Some content)) relDir = Ok html
       /\ hrefs html
          = (fun ref => escape (spec_rewrite relDir ref))
              <$> ast.Destinations (md_Parse content).
Proof.
  cbv zeta.
  assert (ast.Destinations
            (ast.Walk (retarget (spec_rewrite relDir)) (md_Parse content))
          = spec_rewrite relDir <$> ast.Destinations (md_Parse content)) as Hd
    by by apply Destinations_Walk.
  assert (renderReadme (File name (Some content)) relDir
          = Ok match md_Render content
                       (ast.Walk (retarget (spec_rewrite relDir)) (md_Parse content))
               with
               | Some buf => buf
               | None => template.HTMLEscapeString content
               end) as Hr.
  { unfold renderReadme. cbn [os_ReadFile]. rewrite rewrittenDoc_spec.
    by destruct (md_Render content _). }
  split; [done|]. split; [done|].
  intros hrefs escape html Hshow Hhtml. rewrite Hr, Hhtml. split; [done|].
  rewrite (Hshow _ _ Hhtml), Hd. by rewrite <- list_fmap_compose.
Qed.

(** C6: for every content that was read, [renderReadme] returns HTML and
    no error; when the renderer reports an error the HTML is the escaped
    raw content. *)
Theorem renderReadme_no_markup_error (name content relDir : string) :
  (exists html, renderReadme (File name (Some content)) relDir = Ok html) /\
  (md_Render content (rewrittenDoc content relDir) = None ->
   renderReadme (File name (Some content)) relDir
   = Ok (template.HTMLEscapeString content)).
Proof.
  unfold renderReadme. simpl.
  destruct (md_Render content (rewrittenDoc content relDir)) as [buf|];
    split; eauto; done.
Qed.

End RendererFacts.

Lemma renderReadme_no_markup_error_witness :
  (exists html, @renderReadme asciiCasing failingGoldmark
       (File "README.md" (Some "<b>R&D</b>")) "HR" = Ok html) /\
  (@md_Render failingGoldmark "<b>R&D</b>"
     (@rewrittenDoc asciiCasing failingGoldmark "<b>R&D</b>" "HR") = None ->
   @renderReadme asciiCasing failingGoldmark (File "README.md" (Some "<b>R&D</b>")) "HR"
   = Ok (template.HTMLEscapeString "<b>R&D</b>")).
Proof. apply (@renderReadme_no_markup_error asciiCasing failingGoldmark). Defined.

(** The stand-in engine for destinations shows the destinations of the
    tree it is given, one to a line. *)
Lemma linesFrom_noLineFeed d : forall cur rest,
  linesFrom cur (noLineFeed d +:+ String lineFeed rest)
  = (cur +:+ noLineFeed d) :: linesFrom EmptyString rest.
Proof.
  induction d as [|c d IH]; intros cur rest.
  - cbn [noLineFeed]. change ("" +:+ String lineFeed rest) with (String lineFeed rest).
    cbn [linesFrom]. rewrite Ascii.eqb_refl. by rewrite string_app_empty_r.
  - cbn [noLineFeed]. rewrite app_String. cbn [linesFrom].
    assert (Ascii.eqb (if Ascii.eqb c lineFeed then " "%char else c) lineFeed = false)
      as -> by by destruct (Ascii.eqb c lineFeed) eqn:E.
    rewrite IH. f_equal. by rewrite string_app_assoc.
Qed.

Lemma linkRender_shows content doc buf :
  linkRender content doc = Some buf ->
  lines buf = noLineFeed <$> ast.Destinations doc.
Proof.
  unfold linkRender, lines. intros [= <-].
  induction (ast.Destinations doc) as [|d ds IH]; [done|].
  cbn [foldr fmap list_fmap]. by rewrite linesFrom_noLineFeed, IH.
Qed.

Lemma rewritten_destinations_witness :
  @renderReadme asciiCasing linkGoldmark (File "README.md" (Some "guide.pdf")) "HR"
  = Ok ("/docs/HR/guide.pdf" +:+ String lineFeed ("/logo.png" +:+ String lineFeed ""))
  /\ lines ("/docs/HR/guide.pdf" +:+ String lineFeed ("/logo.png" +:+ String lineFeed ""))
     = ["/docs/HR/guide.pdf"; "/logo.png"].
Proof.
  apply (proj2 (proj2 (@rewritten_destinations asciiCasing linkGoldmark
                         "README.md" "guide.pdf" "HR")) lines noLineFeed).
  - intros doc buf. apply linkRender_shows.
  - reflexivity.
Defined.

Example escape_example :
  template.HTMLEscapeString "<b>R&D</b>" = "&lt;b&gt;R&amp;D&lt;/b&gt;".
Proof. reflexivity. Qed.

Example isRelativeURL_examples `{!Strings.Casing} :
  isRelativeURL "img.png" = true /\
  isRelativeURL "https://example.com/x.png" = false /\
  isRelativeURL "HTTP://example.com/x.png" = false /\
  isRelativeURL "/absolute/x.png" = false /\
  isRelativeURL "httpd/notes.md" = true.
Proof. rewrite !isRelativeURL_spec. repeat split. Qed.

(** ** Sorting *)

Section SortFacts.
Context `{!GoSort}.

Lemma sort_Slice_nil {A} (less : A -> A -> bool) : sort_Slice less [] = [].
Proof. apply Permutation_nil_r. apply sort_Slice_Permutation. Qed.

Lemma sort_Slice_singleton {A} (less : A -> A -> bool) (a : A) :
  sort_Slice less [a] = [a].
Proof. apply Permutation_singleton_r. apply sort_Slice_Permutation. Qed.

Lemma sort_Slice_elem_of {A} (less : A -> A -> bool) (x : list A) (a : A) :
  a ∈ sort_Slice less x <-> a ∈ x.
Proof. by rewrite sort_Slice_Permutation. Qed.

Lemma sort_Slice_lessByLowerName `{!Strings.Casing} (x : list Document) :
  StronglySorted
    (fun a b => String.le (Strings.ToLower (doc_Name a)) (Strings.ToLower (doc_Name b)))
    (sort_Slice lessByLowerName x).
Proof. apply (sort_Slice_Sorted Document (fun d => Strings.ToLower (doc_Name d))). Qed.

End SortFacts.

(** ** The walk *)

Section WalkFacts.
Context `{!Strings.Casing} `{!Goldmark} `{!GoSort}.

Lemma walkDir_eq path d st :
  walkDir path d st =
  match d with
  | File _ _ => walkFn path d false st
  | Dir _ dirs readErr =>
      walkEntries path dirs
        (if readErr then walkFn path d true (walkFn path d false st)
         else walkFn path d false st)
  end.
Proof.
  destruct d as [n c|n dirs readErr]; [done|]. cbn [walkDir].
  match goal with |- _ = walkEntries _ _ ?s => generalize s end.
  unfold walkEntries. induction dirs as [|d1 dirs IH]; intros st'; [done|].
  cbn [foldl]. apply IH.
Qed.

Lemma walkEntries_cons path d1 dirs st :
  walkEntries path (d1 :: dirs) st =
  walkEntries path dirs (walkDir (path ++ [Entry_Name d1]) d1 st).
Proof. done. Qed.

Lemma walkEntries_app path dirs1 dirs2 st :
  walkEntries path (dirs1 ++ dirs2) st =
  walkEntries path dirs2 (walkEntries path dirs1 st).
Proof. unfold walkEntries. apply foldl_app. Qed.

(** A property kept by the walk of every entry is kept by the walk of a
    directory's entries. *)
Lemma walkEntries_preserves (P : ScanState -> Prop) path dirs :
  (forall d1 st, d1 ∈ dirs -> P st -> P (walkDir (path ++ [Entry_Name d1]) d1 st)) ->
  forall st, P st -> P (walkEntries path dirs st).
Proof.
  induction dirs as [|d1 dirs IH]; intros Hstep st Hst; [done|].
  rewrite walkEntries_cons. apply IH.
  - intros d2 st2 Hd2. apply Hstep. by right.
  - apply Hstep; [by left|done].
Qed.

End WalkFacts.

(** The walk sees the markdown engine only through [renderReadme], and the
    case tables only through three tests against plain literals. *)
Section EngineIndependence.
Context (S S' : Strings.Casing) (G G' : Goldmark) `{!GoSort}.
Hypothesis same : forall d rel, @renderReadme S G d rel = @renderReadme S' G' d rel.

Lemma walkFn_ext path d err st :
  @walkFn S G path d err st = @walkFn S' G' path d err st.
Proof.
  unfold walkFn. cbv zeta. rewrite same.
  rewrite !(@Strings.ToLower_HasSuffix S), !(@Strings.ToLower_HasSuffix S')
    by reflexivity.
  by rewrite (@Strings.ToLower_eqb S), (@Strings.ToLower_eqb S') by reflexivity.
Qed.

Lemma walkDir_ext d : forall path st,
  @walkDir S G path d st = @walkDir S' G' path d st.
Proof.
  induction d as [n c|n es e IH] using Entry_tree_ind; intros path st;
    rewrite !walkDir_eq, !walkFn_ext; [done|].
  generalize (if e then @walkFn S' G' path (Dir n es e) true
                          (@walkFn S' G' path (Dir n es e) false st)
              else @walkFn S' G' path (Dir n es e) false st).
  induction IH as [|d1 es Hd1 _ IHes]; intros st'; [done|].
  by rewrite !walkEntries_cons, Hd1, IHes.
Qed.

End EngineIndependence.

Lemma rewrittenDoc_casing (S S' : Strings.Casing) (G : Goldmark) content relDir :
  @rewrittenDoc S G content relDir = @rewrittenDoc S' G content relDir.
Proof. by rewrite !rewrittenDoc_spec. Qed.

Lemma renderReadme_neverFailing (S S' : Strings.Casing) (G : Goldmark) d rel :
  @renderReadme S G d rel = @renderReadme S' (neverFailing G) d rel.
Proof.
  unfold renderReadme. destruct (os_ReadFile d) as [content|]; [|done].
  rewrite (rewrittenDoc_casing S S'). unfold rewrittenDoc. simpl.
  by destruct (md_Render _ _).
Qed.

Lemma readmeOrEscaped_casing (S S' : Strings.Casing) (G : Goldmark) content relDir :
  @readmeOrEscaped S G content relDir = @readmeOrEscaped S' G content relDir.
Proof. unfold readmeOrEscaped. by rewrite (rewrittenDoc_casing S S'). Qed.

(** ** The root *)

Lemma os_Stat_mount p root : os_Stat (mount p root) p = Some root.
Proof. unfold os_Stat, mount. by rewrite String.eqb_refl. Qed.

Lemma os_Lstat_mount p root : os_Lstat (mount p root) p = Some root.
Proof. unfold os_Lstat, mount. by rewrite String.eqb_refl. Qed.

(** What [os.Lstat] finds to be a directory is no link, and [os.Stat]
    finds the same. *)
Lemma os_Lstat_Dir fs p n es e :
  os_Lstat fs p = Some (Dir n es e) -> os_Stat fs p = Some (Dir n es e).
Proof.
  unfold os_Lstat, os_Stat. by destruct (fs p) as [[d|l t]|].
Qed.

(** Where [os.Stat] succeeds, so does [os.Lstat]. *)
Lemma os_Stat_Lstat fs p d :
  os_Stat fs p = Some d -> exists d', os_Lstat fs p = Some d'.
Proof.
  unfold os_Lstat, os_Stat. destruct (fs p) as [[d0|l t]|]; [eauto..|done].
Qed.

Lemma scan_eq `{!Strings.Casing} `{!Goldmark} `{!GoSort} r fs root :
  os_Stat fs (dir r) <> None -> os_Lstat fs (dir r) = Some root ->
  scan r fs = Ok (generalSection (generalDocs (WalkDir root initScan))
                  ++ dirSections (sectionsMap (WalkDir root initScan))).
Proof.
  intros Hstat Hlstat. unfold scan, WalkDirFrom. rewrite Hlstat.
  by destruct (os_Stat fs (dir r)).
Qed.

Lemma scan_Ok `{!Strings.Casing} `{!Goldmark} `{!GoSort} r fs root sections :
  os_Lstat fs (dir r) = Some root -> scan r fs = Ok sections ->
  sections = generalSection (generalDocs (WalkDir root initScan))
             ++ dirSections (sectionsMap (WalkDir root initScan)).
Proof.
  intros Hlstat. unfold scan, WalkDirFrom. rewrite Hlstat.
  destruct (os_Stat fs (dir r)); [|done]. by intros [= <-].
Qed.

(** ** The scenario of the repository's test *)

Section Scenario.
Context `{C : !Strings.Casing} `{G : !Goldmark} `{!GoSort}.

Lemma renderReadme_readable name content relDir :
  renderReadme (File name (Some content)) relDir
  = Ok (readmeOrEscaped content relDir).
Proof.
  unfold renderReadme, readmeOrEscaped. simpl.
  by destruct (md_Render content (rewrittenDoc content relDir)).
Qed.

Lemma emitSection_documents (m : gmap string Section) k sec d ds :
  m !! k = Some sec -> sec_Documents sec = d :: ds ->
  emitSection m k =
  Some {| sec_Name := sec_Name sec;
          sec_Documents := sort_Slice lessByLowerName (d :: ds);
          sec_Readme := sec_Readme sec |}.
Proof. intros Hk Hd. unfold emitSection. by rewrite Hk, Hd. Qed.

Lemma WalkDir_scenario :
  WalkDir scenarioRoot initScan =
  {| generalDocs := [ {| doc_Name := "root.pdf"; doc_URL := "/docs/root.pdf" |} ];
     sectionsMap :=
       <["HR" :=
           {| sec_Name := "HR";
              sec_Documents :=
                [ {| doc_Name := "hiring.pdf"; doc_URL := "/docs/HR/hiring.pdf" |} ];
              sec_Readme := readmeOrEscaped "# HR Section" "HR" |}]>
       (<["HR/2025" :=
           {| sec_Name := "HR/2025";
              sec_Documents :=
                [ {| doc_Name := "plan.pdf"; doc_URL := "/docs/HR/2025/plan.pdf" |} ];
              sec_Readme := readmeOrEscaped "# HR 2025" "HR/2025" |}]> ∅);
     logged := [] |}.
Proof.
  unfold WalkDir. rewrite (walkDir_ext C asciiCasing G (neverFailing G))
    by apply renderReadme_neverFailing.
  rewrite !(readmeOrEscaped_casing C asciiCasing).
  destruct G as [parse render]. vm_compute. reflexivity.
Qed.

Lemma scan_scenario_sections d cacheTTL :
  scan (NewDocRepository d cacheTTL) (mount d scenarioRoot) = Ok scenarioSections.
Proof.
  rewrite (scan_eq _ _ scenarioRoot)
    by (cbn [dir NewDocRepository]; by rewrite ?os_Stat_mount, ?os_Lstat_mount).
  rewrite WalkDir_scenario.
  cbn [generalDocs sectionsMap generalSection]. rewrite sort_Slice_singleton.
  unfold dirSections.
  match goal with |- context [sort_Strings (mapKeys ?m)] =>
    replace (sort_Strings (mapKeys m)) with ["HR"; "HR/2025"]
      by (destruct G; vm_compute; reflexivity)
  end.
  cbn [omap list_omap].
  erewrite (emitSection_documents _ "HR");
    [|by rewrite lookup_insert_eq|reflexivity].
  erewrite (emitSection_documents _ "HR/2025");
    [|by rewrite lookup_insert_ne, lookup_insert_eq|reflexivity].
  by rewrite !sort_Slice_singleton.
Qed.

(** C1: for the tree of the test, [scan], and with it the first call of
    [GetSections], returns three sections: General with [root.pdf] only,
    [HR] with [hiring.pdf] only and a non-empty readme, [HR/2025] with
    [plan.pdf] only and a non-empty readme.  The markdown engine is any
    engine that writes something for the two READMEs. *)
Theorem scan_scenario (d : string) (cacheTTL : Z) (clk : Clock) :
  md_Render "# HR Section" (rewrittenDoc "# HR Section" "HR") <> Some "" ->
  md_Render "# HR 2025" (rewrittenDoc "# HR 2025" "HR/2025") <> Some "" ->
  scan (NewDocRepository d cacheTTL) (mount d scenarioRoot) = Ok scenarioSections
  /\ returned (GetSections (NewDocRepository d cacheTTL) (mount d scenarioRoot) clk)
     = Ok scenarioSections
  /\ sec_Readme <$> scenarioSections
     = [""; readmeOrEscaped "# HR Section" "HR"; readmeOrEscaped "# HR 2025" "HR/2025"]
  /\ readmeOrEscaped "# HR Section" "HR" <> ""
  /\ readmeOrEscaped "# HR 2025" "HR/2025" <> "".
Proof.
  intros H1 H2. split; [apply scan_scenario_sections|].
  split; [|split; [done|]].
  - unfold GetSections, underLock, isFresh. cbn [cache NewDocRepository].
    rewrite bool_decide_eq_true_2 by done. rewrite !andb_false_r.
    by rewrite scan_scenario_sections.
  - unfold readmeOrEscaped. split.
    + destruct (md_Render "# HR Section" _) as [buf|]; [congruence|done].
    + destruct (md_Render "# HR 2025" _) as [buf|]; [congruence|done].
Qed.

End Scenario.

Lemma scan_scenario_witness :
  @scan asciiCasing simpleGoldmark stableGoSort (NewDocRepository "docs" 60)
    (mount "docs" scenarioRoot)
  = Ok [ {| sec_Name := General;
            sec_Documents :=
              [ {| doc_Name := "root.pdf"; doc_URL := "/docs/root.pdf" |} ];
            sec_Readme := "" |};
         {| sec_Name := "HR";
            sec_Documents :=
              [ {| doc_Name := "hiring.pdf"; doc_URL := "/docs/HR/hiring.pdf" |} ];
            sec_Readme := "<h1>HR Section</h1>" |};
         {| sec_Name := "HR/2025";
            sec_Documents :=
              [ {| doc_Name := "plan.pdf"; doc_URL := "/docs/HR/2025/plan.pdf" |} ];
            sec_Readme := "<h1>HR 2025</h1>" |} ].
Proof.
  refine (proj1 (@scan_scenario asciiCasing simpleGoldmark stableGoSort "docs" 60
                   {| atRLock := 0; atLock := 0; atStore := 0 |} _ _));
    vm_compute; discriminate.
Defined.

(** ** The TTL cache *)

Section CacheFacts.
Context `{!Strings.Casing} `{!Goldmark} `{!GoSort}.

Lemma isFresh_true r now :
  cache r <> [] -> now - cacheTime r < ttl r -> isFresh r now = true.
Proof.
  intros Hc Ht. unfold isFresh.
  rewrite bool_decide_eq_false_2 by done.
  rewrite andb_true_r. by apply Z.ltb_lt.
Qed.

Lemma isFresh_later r t1 t2 :
  t1 <= t2 -> isFresh r t1 = false -> isFresh r t2 = false.
Proof.
  unfold isFresh. intros Ht.
  destruct (bool_decide (cache r = [])); simpl; rewrite ?andb_false_r; [done|].
  rewrite !andb_true_r, !Z.ltb_ge. lia.
Qed.

Lemma isFresh_expired r now :
  ttl r <= now - cacheTime r -> isFresh r now = false.
Proof. intros Ht. unfold isFresh. by rewrite (proj2 (Z.ltb_ge _ _) Ht). Qed.

Lemma GetSections_hit r fs clk :
  isFresh r (atRLock clk) = true ->
  GetSections r fs clk = {| returned := Ok (cache r); repo := r; scans := 0 |}.
Proof. intros Hf. unfold GetSections. by rewrite Hf. Qed.

Lemma GetSections_stale r fs clk :
  ticks clk -> isFresh r (atRLock clk) = false ->
  GetSections r fs clk =
  match scan r fs with
  | Err err => {| returned := Err err; repo := r; scans := 1 |}
  | Ok sections =>
      {| returned := Ok sections;
         repo := {| dir := dir r; cache := sections;
                    cacheTime := atStore clk; ttl := ttl r |};
         scans := 1 |}
  end.
Proof.
  intros [Ht _] Hf. unfold GetSections, underLock.
  by rewrite Hf, (isFresh_later r _ _ Ht Hf).
Qed.

(** C2, as the code has it: for a repository that holds at least one
    section, every call whose clock reads less than [ttl] past [cacheTime]
    returns the cached list, leaves the repository as it is and does not
    scan, whatever the file system looks like by then; so any number of
    such calls costs no scan, and a caller that reaches the write lock
    while the list is fresh does not scan either.  A call at or after
    expiry scans once and returns what [scan] returns, storing a
    successful result with the time of the store. *)
Theorem cached_within_ttl (r : DocRepository) :
  cache r <> [] ->
  (forall fs clk, atRLock clk - cacheTime r < ttl r ->
     GetSections r fs clk = {| returned := Ok (cache r); repo := r; scans := 0 |})
  /\ (forall cs, Forall (fun c => atRLock c.2 - cacheTime r < ttl r) cs ->
        calls r cs = ((fun _ => Ok (cache r)) <$> cs, r, 0%nat))
  /\ (forall fs clk, atLock clk - cacheTime r < ttl r ->
        underLock r fs clk = {| returned := Ok (cache r); repo := r; scans := 0 |})
  /\ (forall fs clk, ticks clk -> ttl r <= atRLock clk - cacheTime r ->
        scans (GetSections r fs clk) = 1%nat
        /\ returned (GetSections r fs clk) = scan r fs
        /\ forall sections, scan r fs = Ok sections ->
             cache (repo (GetSections r fs clk)) = sections
             /\ cacheTime (repo (GetSections r fs clk)) = atStore clk).
Proof.
  intros Hc. split; [|split; [|split]].
  - intros fs clk Ht. by apply GetSections_hit, isFresh_true.
  - induction 1 as [|[fs clk] cs Ht _ IH]; [done|]. cbn [calls].
    rewrite GetSections_hit by by apply isFresh_true.
    cbn [repo returned scans]. by rewrite IH.
  - intros fs clk Ht. unfold underLock. by rewrite isFresh_true.
  - intros fs clk Hclk Ht.
    rewrite GetSections_stale by auto using isFresh_expired.
    destruct (scan r fs) as [sections|e]; cbn [scans returned repo];
      (split; [done|]); (split; [done|]); intros s' Hs'; by simplify_eq.
Qed.

(** C8: when the refresh fails the caller gets the error, the repository
    is left exactly as it was, and every later call scans again. *)
Theorem failed_refresh_keeps_cache (r : DocRepository) (fs : FS) (clk : Clock)
    (e : GoError) :
  ticks clk -> isFresh r (atRLock clk) = false -> scan r fs = Err e ->
  returned (GetSections r fs clk) = Err e
  /\ repo (GetSections r fs clk) = r
  /\ forall fs' clk', ticks clk' -> atRLock clk <= atRLock clk' ->
       scans (GetSections (repo (GetSections r fs clk)) fs' clk') = 1%nat
       /\ returned (GetSections (repo (GetSections r fs clk)) fs' clk')
          = scan r fs'.
Proof.
  intros Hclk Hf He. rewrite (GetSections_stale r fs clk Hclk Hf), He.
  cbn [returned repo]. repeat split; try done.
  all: rewrite GetSections_stale by eauto using isFresh_later;
    by destruct (scan r fs').
Qed.

(** C9: two calls in a row over the same file system, the second within
    the TTL of the repository the first one left, return equal results. *)
Theorem GetSections_twice (r : DocRepository) (fs : FS) (clk1 clk2 : Clock) :
  ticks clk1 -> ticks clk2 -> atStore clk1 <= atRLock clk2 ->
  atRLock clk2 - cacheTime (repo (GetSections r fs clk1)) < ttl r ->
  returned (GetSections (repo (GetSections r fs clk1)) fs clk2)
  = returned (GetSections r fs clk1).
Proof.
  intros Hc1 Hc2 Hlater Hin.
  destruct (isFresh r (atRLock clk1)) eqn:Hf1.
  - rewrite (GetSections_hit r fs clk1 Hf1) in *. cbn [repo returned] in *.
    rewrite GetSections_hit; [done|].
    unfold isFresh in *. apply andb_true_iff in Hf1 as [_ ->].
    rewrite andb_true_r. by apply Z.ltb_lt.
  - rewrite (GetSections_stale r fs clk1 Hc1 Hf1) in *.
    destruct (scan r fs) as [sections|e] eqn:Hs; cbn [repo returned] in *.
    + set (r' := {| dir := dir r; cache := sections;
                    cacheTime := atStore clk1; ttl := ttl r |}).
      destruct (isFresh r' (atRLock clk2)) eqn:Hf2.
      * by rewrite GetSections_hit.
      * rewrite GetSections_stale by done.
        replace (scan r' fs) with (scan r fs) by done. by rewrite Hs.
    + assert (isFresh r (atRLock clk2) = false) as Hf2.
      { destruct Hc1. eapply isFresh_later; [|done]. lia. }
      rewrite GetSections_stale by done. by rewrite Hs.
Qed.

End CacheFacts.

Lemma cached_within_ttl_witness :
  @GetSections asciiCasing simpleGoldmark stableGoSort warmRepository noFS (at_ 159)
  = {| returned := Ok (cache warmRepository); repo := warmRepository; scans := 0 |}.
Proof.
  apply (@cached_within_ttl asciiCasing simpleGoldmark stableGoSort warmRepository);
    [discriminate | vm_compute; reflexivity].
Defined.

Lemma failed_refresh_keeps_cache_witness :
  returned (@GetSections asciiCasing simpleGoldmark stableGoSort warmRepository noFS (at_ 160))
  = Err ErrStat
  /\ repo (@GetSections asciiCasing simpleGoldmark stableGoSort warmRepository noFS (at_ 160))
     = warmRepository.
Proof.
  pose proof (@failed_refresh_keeps_cache asciiCasing simpleGoldmark stableGoSort
                warmRepository noFS (at_ 160) ErrStat) as H.
  destruct H as (H1 & H2 & _); [vm_compute; split; discriminate | reflexivity
    | reflexivity | by split].
Defined.

Lemma GetSections_twice_witness :
  returned (@GetSections asciiCasing simpleGoldmark stableGoSort
              (repo (@GetSections asciiCasing simpleGoldmark stableGoSort
                       (NewDocRepository "docs" 60) (mount "docs" onePdfRoot) (at_ 100)))
              (mount "docs" onePdfRoot) (at_ 130))
  = returned (@GetSections asciiCasing simpleGoldmark stableGoSort
                (NewDocRepository "docs" 60) (mount "docs" onePdfRoot) (at_ 100)).
Proof.
  apply (@GetSections_twice asciiCasing simpleGoldmark stableGoSort);
    [vm_compute; split; discriminate | vm_compute; split; discriminate
    | vm_compute; discriminate | vm_compute; reflexivity].
Defined.

(** C2 as stated fails when the last scan found nothing: the stored list
    is nil, the next call inside the TTL scans again and returns the new
    tree, not the cached (empty) list. *)
Lemma empty_result_not_cached :
  let o1 := @GetSections asciiCasing simpleGoldmark stableGoSort
              (NewDocRepository "docs" 60) (mount "docs" emptyRoot) (at_ 100) in
  let o2 := @GetSections asciiCasing simpleGoldmark stableGoSort
              (repo o1) (mount "docs" onePdfRoot) (at_ 110) in
  returned o1 = Ok []
  /\ atRLock (at_ 110) - cacheTime (repo o1) < ttl (repo o1)
  /\ scans o2 = 1%nat
  /\ returned o2 <> Ok (cache (repo o1)).
Proof. vm_compute. repeat split; discriminate. Qed.

(** ** Failures of the scan *)

Section ScanFailures.
Context `{!Strings.Casing} `{!Goldmark} `{!GoSort}.

Lemma unreadable_directory_skipped path n es st :
  path <> [] ->
  walkDir path (Dir n es true) st
  = walkEntries path es (log_Printf (ErrorAccessing path) st).
Proof. intros Hp. rewrite walkDir_eq. by destruct path. Qed.

Lemma unreadable_README_logged path n st :
  path <> [] -> Strings.ToLower n = "readme.md" ->
  filepath.Dir (filepath.Join path) <> "." ->
  walkFn path (File n None) false st =
  log_Printf (ErrorReadingREADME (filepath.Dir (filepath.Join path)))
    match sectionsMap st !! filepath.Dir (filepath.Join path) with
    | Some _ => st
    | None =>
        storeSection (filepath.Dir (filepath.Join path))
          {| sec_Name := filepath.Dir (filepath.Join path);
             sec_Documents := []; sec_Readme := "" |} st
    end.
Proof.
  intros Hp Hn Hd. unfold walkFn. destruct path as [|p path]; [done|].
  cbv zeta. cbn [IsDir Entry_Name]. rewrite Hn.
  apply String.eqb_neq in Hd. rewrite Hd.
  by destruct (sectionsMap st !! _).
Qed.

(** A file is opened only if it is a README: of any other file the walk
    logs nothing, whether it can be read or not. *)
Lemma other_file_not_logged path n c st :
  Strings.ToLower n <> "readme.md" ->
  logged (walkFn path (File n c) false st) = logged st.
Proof.
  intros Hn%String.eqb_neq. unfold walkFn. destruct path as [|p path]; [done|].
  cbv zeta. cbn [IsDir Entry_Name]. rewrite Hn.
  destruct (String.eqb _ "."); [by destruct (Strings.HasSuffix _ _)|].
  by destruct (sectionsMap st !! _), (Strings.HasSuffix _ _).
Qed.

End ScanFailures.

(** ** Paths *)

Example Dir_examples :
  filepath.Dir "root.pdf" = "."
  /\ filepath.Dir "HR/hiring.pdf" = "HR"
  /\ filepath.Dir "HR/2025/plan.pdf" = "HR/2025"
  /\ filepath.Join ["HR"; "2025"; "plan.pdf"] = "HR/2025/plan.pdf".
Proof. repeat split. Qed.

Lemma beforeLastSeparator_lowerASCII n :
  filepath.beforeLastSeparator (Strings.lowerASCII n) = None <->
  filepath.beforeLastSeparator n = None.
Proof.
  induction n as [|c n IH]; [done|].
  cbn [Strings.lowerASCII filepath.beforeLastSeparator].
  rewrite ToLower_byte_slash.
  destruct (filepath.beforeLastSeparator (Strings.lowerASCII n)),
    (filepath.beforeLastSeparator n); try done.
  - by destruct IH as [_ IH]; specialize (IH eq_refl).
  - by destruct IH as [IH _]; specialize (IH eq_refl).
Qed.

Lemma Dir_noSeparator n : noSeparator n = true -> filepath.Dir n = ".".
Proof.
  unfold noSeparator, filepath.Dir.
  by destruct (filepath.beforeLastSeparator n).
Qed.

Lemma noSeparator_lowerASCII n :
  noSeparator (Strings.lowerASCII n) = true -> noSeparator n = true.
Proof.
  unfold noSeparator. pose proof (beforeLastSeparator_lowerASCII n) as [H _].
  destruct (filepath.beforeLastSeparator (Strings.lowerASCII n)); [done|].
  by rewrite H.
Qed.

(** ** A README directly under the root *)

Section RootReadme.
Context `{!Strings.Casing} `{!Goldmark} `{!GoSort}.

Lemma walkDir_root_readme nm c st :
  Strings.ToLower nm = "readme.md" ->
  walkDir ([] ++ [Entry_Name (File nm c)]) (File nm c) st = st.
Proof.
  intros Hnm. rewrite walkDir_eq. unfold walkFn.
  cbn [app Entry_Name IsDir filepath.Join]. cbv zeta.
  rewrite Dir_noSeparator.
  - by rewrite Hnm.
  - apply noSeparator_lowerASCII.
    by rewrite (proj1 (ToLower_literal nm "readme.md" eq_refl) Hnm).
Qed.

(** C10: a file named readme.md, in any letter case, directly under the
    root changes nothing: the scan of the tree with it equals the scan of
    the tree without it, and the General section, when there is one, has
    an empty readme. *)
Theorem root_readme_ignored (r : DocRepository) (fs fs' : FS)
    (n : string) (l1 l2 : list Entry) (e : bool) (nm : string) (c : option string) :
  Strings.ToLower nm = "readme.md" ->
  os_Lstat fs (dir r) = Some (Dir n (l1 ++ File nm c :: l2) e) ->
  os_Lstat fs' (dir r) = Some (Dir n (l1 ++ l2) e) ->
  scan r fs = scan r fs'
  /\ exists st,
       scan r fs = Ok (generalSection (generalDocs st) ++ dirSections (sectionsMap st))
       /\ forall s, s ∈ generalSection (generalDocs st) ->
            sec_Name s = General /\ sec_Readme s = "".
Proof.
  intros Hnm Hfs Hfs'.
  assert (forall st, WalkDir (Dir n (l1 ++ File nm c :: l2) e) st
                     = WalkDir (Dir n (l1 ++ l2) e) st) as Hwalk.
  { intros st. unfold WalkDir. rewrite !walkDir_eq.
    replace (walkFn [] (Dir n (l1 ++ File nm c :: l2) e))
      with (walkFn [] (Dir n (l1 ++ l2) e)) by done.
    rewrite !walkEntries_app, walkEntries_cons.
    by rewrite walkDir_root_readme. }
  rewrite (scan_eq r fs _) by (by rewrite ?(os_Lstat_Dir _ _ _ _ _ Hfs)).
  rewrite (scan_eq r fs' _) by (by rewrite ?(os_Lstat_Dir _ _ _ _ _ Hfs')).
  rewrite Hwalk. split; [done|].
  eexists. split; [done|].
  intros s. unfold generalSection.
  destruct (generalDocs _); [by intros ?%elem_of_nil|].
  by intros ->%list_elem_of_singleton.
Qed.

End RootReadme.

Lemma root_readme_ignored_witness :
  @scan asciiCasing simpleGoldmark stableGoSort (NewDocRepository "docs" 60)
    (mount "docs" rootWithReadme)
  = @scan asciiCasing simpleGoldmark stableGoSort (NewDocRepository "docs" 60)
      (mount "docs" rootWithoutReadme).
Proof.
  refine (proj1 (@root_readme_ignored asciiCasing simpleGoldmark stableGoSort
                   (NewDocRepository "docs" 60)
                   (mount "docs" rootWithReadme) (mount "docs" rootWithoutReadme)
                   "docs" [] [File "a.pdf" (Some "pdf")] false
                   "ReadMe.MD" (Some "# Top") _ _ _)); reflexivity.
Defined.

(** ** Paths of the walk *)

Lemma beforeLastSeparator_app (p n : string) :
  noSeparator n = true ->
  filepath.beforeLastSeparator (p +:+ "/" +:+ n) = Some p.
Proof.
  unfold noSeparator. intros Hn.
  destruct (filepath.beforeLastSeparator n) eqn:En; [done|].
  induction p as [|c p IH].
  - change ("" +:+ "/" +:+ n) with (String "/" n).
    cbn [filepath.beforeLastSeparator]. by rewrite En.
  - rewrite app_String. cbn [filepath.beforeLastSeparator]. by rewrite IH.
Qed.

Lemma Join_snoc path n :
  path <> [] ->
  filepath.Join (path ++ [n]) = filepath.Join path +:+ "/" +:+ n.
Proof.
  induction path as [|a path IH]; [done|]. intros _.
  destruct path as [|b path]; [done|].
  change (filepath.Join ((a :: b :: path) ++ [n]))
    with (a +:+ "/" +:+ filepath.Join ((b :: path) ++ [n])).
  rewrite IH by done.
  change (filepath.Join (a :: b :: path))
    with (a +:+ "/" +:+ filepath.Join (b :: path)).
  by rewrite !string_app_assoc.
Qed.

Lemma validName_inv n :
  validName n = true -> n <> "" /\ n <> "." /\ noSeparator n = true.
Proof.
  unfold validName. rewrite !andb_true_iff, !negb_true_iff, !String.eqb_neq.
  tauto.
Qed.

Lemma Join_valid path :
  path <> [] -> validPath path ->
  filepath.Join path <> "" /\ filepath.Join path <> ".".
Proof.
  destruct path as [|a path]; [done|]. intros _ Hv.
  apply Forall_cons in Hv as [(Ha1 & Ha2 & _)%validName_inv _].
  destruct path as [|b path]; [done|].
  change (filepath.Join (a :: b :: path))
    with (a +:+ "/" +:+ filepath.Join (b :: path)).
  destruct a as [|c a]; [done|]. rewrite app_String.
  split; [done|]. intros [= -> Ha]. by destruct a.
Qed.

Lemma Join_cons a rest :
  filepath.Join (a :: rest) = a +:+ filepath.afterFirst rest.
Proof. destruct rest; [|done]. by rewrite string_app_empty_r. Qed.

Lemma noSeparator_String c n :
  noSeparator (String c n) = true -> c <> "/"%char /\ noSeparator n = true.
Proof.
  unfold noSeparator. cbn [filepath.beforeLastSeparator].
  destruct (filepath.beforeLastSeparator n); [done|].
  destruct (Ascii.eqb c "/") eqn:E; [done|]. by apply Ascii.eqb_neq in E.
Qed.

Lemma afterFirst_shape rest :
  filepath.afterFirst rest = "" \/ exists t, filepath.afterFirst rest = String "/" t.
Proof. destruct rest; [by left|right]. by eexists. Qed.

(** Two names without separator followed by nothing or by a separator
    are equal when the whole strings are. *)
Lemma split_first_name (a b x y : string) :
  noSeparator a = true -> noSeparator b = true ->
  (x = "" \/ exists t, x = String "/" t) ->
  (y = "" \/ exists t, y = String "/" t) ->
  a +:+ x = b +:+ y -> a = b /\ x = y.
Proof.
  revert b. induction a as [|c a IH]; intros [|c' b] Ha Hb Hx Hy Heq.
  - done.
  - apply noSeparator_String in Hb as [Hc' _]. rewrite app_String in Heq.
    change ("" +:+ x) with x in Heq. destruct Hx as [->|[t ->]]; [done|].
    by injection Heq as <- _.
  - apply noSeparator_String in Ha as [Hc _]. rewrite app_String in Heq.
    change ("" +:+ y) with y in Heq. destruct Hy as [->|[t ->]]; [done|].
    by injection Heq as -> _.
  - apply noSeparator_String in Ha as [_ Ha].
    apply noSeparator_String in Hb as [_ Hb].
    rewrite !app_String in Heq. injection Heq as -> Heq.
    destruct (IH b Ha Hb Hx Hy Heq) as [-> ->]. done.
Qed.

(** Distinct directories have distinct keys. *)
Lemma Join_inj p : forall q,
  validPath p -> validPath q -> filepath.Join p = filepath.Join q -> p = q.
Proof.
  induction p as [|a p IH]; intros [|b q] Hp Hq HJ; [done|..].
  - by destruct (Join_valid (b :: q)).
  - by destruct (Join_valid (a :: p)).
  - apply Forall_cons in Hp as [(_ & _ & Ha)%validName_inv Hp].
    apply Forall_cons in Hq as [(_ & _ & Hb)%validName_inv Hq].
    rewrite !Join_cons in HJ.
    apply split_first_name in HJ as [-> HT]; auto using afterFirst_shape.
    f_equal. apply IH; [done..|].
    destruct p, q; try done. cbn [filepath.afterFirst] in HT.
    by apply (inj (String.app "/")) in HT.
Qed.

Lemma Dir_Join_snoc path n :
  path <> [] -> validPath path -> noSeparator n = true ->
  filepath.Dir (filepath.Join (path ++ [n])) = filepath.Join path.
Proof.
  intros Hp Hv Hn. unfold filepath.Dir.
  rewrite Join_snoc, beforeLastSeparator_app by done.
  destruct (Join_valid path Hp Hv) as [Hne _].
  by destruct (filepath.Join path).
Qed.

Lemma validPath_snoc path n :
  validPath path -> validName n = true -> validPath (path ++ [n]).
Proof. intros Hp Hn. apply Forall_app. split; [done|]. by constructor. Qed.

Lemma validTree_Dir n es e :
  validTree (Dir n es e) = true ->
  Forall (fun d1 => validName (Entry_Name d1) = true /\ validTree d1 = true) es.
Proof.
  cbn [validTree]. rewrite forallb_forall, Forall_forall.
  intros H d1 Hd1. apply andb_true_iff, H. by apply list_elem_of_In.
Qed.

Lemma dirAt_snoc root path es n es' e :
  dirAt root path es -> Dir n es' e ∈ es -> dirAt root (path ++ [n]) es'.
Proof.
  induction 1 as [n0 es0 e0|n0 es0 e0 d path es1 Hd _ IH]; intros Hin.
  - apply (dirAt_below n0 es0 e0 (Dir n es' e) [] es'); [done|constructor].
  - cbn [app]. by apply dirAt_below; [|apply IH].
Qed.

(** ** What the callback does with a file *)

Section FileSteps.
Context `{!Strings.Casing} `{!Goldmark} `{!GoSort}.

Lemma walkFn_root_file n c st :
  noSeparator n = true ->
  walkFn [n] (File n c) false st =
  if Strings.HasSuffix (Strings.ToLower n) ".pdf"
  then appendGeneral {| doc_Name := n; doc_URL := "/docs/" +:+ n |} st
  else st.
Proof.
  intros Hn. unfold walkFn. cbv zeta. cbn [IsDir Entry_Name filepath.Join].
  by rewrite Dir_noSeparator.
Qed.

Lemma walkFn_nested_file path n c st :
  path <> [] -> validPath path -> validName n = true ->
  walkFn (path ++ [n]) (File n c) false st =
  let k := filepath.Join path in
  let sec := accumulator k st in
  let st1 := withAccumulator k st in
  if Strings.HasSuffix (Strings.ToLower n) ".pdf" then
    storeSection k
      {| sec_Name := sec_Name sec;
         sec_Documents := sec_Documents sec ++
           [{| doc_Name := n; doc_URL := "/docs/" +:+ k +:+ "/" +:+ n |}];
         sec_Readme := sec_Readme sec |} st1
  else if String.eqb (Strings.ToLower n) "readme.md" then
    match renderReadme (File n c) k with
    | Err _ => log_Printf (ErrorReadingREADME k) st1
    | Ok readmeHTML =>
        storeSection k
          {| sec_Name := sec_Name sec; sec_Documents := sec_Documents sec;
             sec_Readme := readmeHTML |} st1
    end
  else st1.
Proof.
  intros Hp Hv (_ & _ & Hn)%validName_inv. unfold walkFn.
  destruct (path ++ [n]) as [|x l] eqn:E; [by destruct path|]. rewrite <- E.
  cbv zeta. cbn [IsDir Entry_Name]. unfold filepath.ToSlash.
  rewrite Dir_Join_snoc, Join_snoc by done.
  destruct (Join_valid path Hp Hv) as [_ Hdot].
  apply String.eqb_neq in Hdot. rewrite Hdot.
  unfold withAccumulator, accumulator, filepath.ToSlash.
  by destruct (sectionsMap st !! filepath.Join path).
Qed.

End FileSteps.

(** ** The invariant of the walk *)

Section WalkInvariant.
Context `{!Strings.Casing} `{!Goldmark} `{!GoSort}.
Variable root : Entry.

Lemma accumulatorsOwn_init : accumulatorsOwn root initScan.
Proof. intros k sec Hk. cbn in Hk. by rewrite lookup_empty in Hk. Qed.

Lemma accumulatorsOwn_log l st :
  accumulatorsOwn root st -> accumulatorsOwn root (log_Printf l st).
Proof. done. Qed.

Lemma accumulatorsOwn_general d st :
  accumulatorsOwn root st -> accumulatorsOwn root (appendGeneral d st).
Proof. done. Qed.

Lemma accumulatorsOwn_store k sec st :
  accumulatorsOwn root st -> sec_Name sec = k -> listsOwnFiles root sec ->
  accumulatorsOwn root (storeSection k sec st).
Proof.
  intros Hst Hname Hown k' sec'. cbn [storeSection sectionsMap].
  rewrite lookup_insert. case_decide; [|by apply Hst].
  by intros [= <-]; subst.
Qed.

Lemma listsOwnFiles_fresh path es :
  path <> [] -> validPath path -> dirAt root path es ->
  listsOwnFiles root
    {| sec_Name := filepath.Join path; sec_Documents := []; sec_Readme := "" |}.
Proof.
  intros Hp Hv Hat. exists path. repeat split; eauto.
  by intros doc ?%elem_of_nil.
Qed.

Lemma listsOwnFiles_readme sec html :
  listsOwnFiles root sec ->
  listsOwnFiles root
    {| sec_Name := sec_Name sec; sec_Documents := sec_Documents sec;
       sec_Readme := html |}.
Proof. done. Qed.

(** A PDF found in the directory of the section may join its documents. *)
Lemma listsOwnFiles_append path es sec n c :
  path <> [] -> validPath path -> dirAt root path es -> File n c ∈ es ->
  sec_Name sec = filepath.Join path -> listsOwnFiles root sec ->
  listsOwnFiles root
    {| sec_Name := sec_Name sec;
       sec_Documents := sec_Documents sec ++
         [{| doc_Name := n;
             doc_URL := "/docs/" +:+ filepath.Join path +:+ "/" +:+ n |}];
       sec_Readme := sec_Readme sec |}.
Proof.
  intros Hp Hv Hat Hin Hname (path0 & Hp0 & Hv0 & Hname0 & Hex & Hdocs).
  assert (path0 = path) as -> by (apply Join_inj; congruence).
  exists path. repeat split; try done.
  intros doc. cbn [sec_Documents sec_Name]. rewrite elem_of_app.
  intros [Hdoc| ->%list_elem_of_singleton]; [by apply Hdocs|].
  exists es, c. cbn [doc_Name doc_URL]. by rewrite Hname.
Qed.

Lemma accumulator_own path es st :
  path <> [] -> validPath path -> dirAt root path es ->
  accumulatorsOwn root st ->
  sec_Name (accumulator (filepath.Join path) st) = filepath.Join path
  /\ listsOwnFiles root (accumulator (filepath.Join path) st).
Proof.
  intros Hp Hv Hat Hst. unfold accumulator.
  destruct (sectionsMap st !! filepath.Join path) as [sec|] eqn:Hk;
    [by apply Hst|].
  split; [done|]. by eapply listsOwnFiles_fresh.
Qed.

Lemma accumulatorsOwn_withAccumulator path es st :
  path <> [] -> validPath path -> dirAt root path es ->
  accumulatorsOwn root st ->
  accumulatorsOwn root (withAccumulator (filepath.Join path) st).
Proof.
  intros Hp Hv Hat Hst. unfold withAccumulator.
  destruct (sectionsMap st !! filepath.Join path) eqn:Hk; [done|].
  by apply accumulatorsOwn_store; [|eapply accumulator_own..].
Qed.

Lemma walkFn_file_own path es n c st :
  dirAt root path es -> File n c ∈ es ->
  validPath path -> validName n = true ->
  accumulatorsOwn root st ->
  accumulatorsOwn root (walkFn (path ++ [n]) (File n c) false st).
Proof.
  intros Hat Hin Hv Hn Hst. destruct (decide (path = [])) as [->|Hp].
  - cbn [app]. rewrite walkFn_root_file by by apply validName_inv.
    by destruct (Strings.HasSuffix _ _).
  - rewrite walkFn_nested_file by done. cbv zeta.
    pose proof (accumulatorsOwn_withAccumulator path es st Hp Hv Hat Hst) as Hst1.
    destruct (accumulator_own path es st Hp Hv Hat Hst) as [Hname Hown].
    destruct (Strings.HasSuffix _ _).
    + apply accumulatorsOwn_store; [done..|]. by eapply listsOwnFiles_append.
    + destruct (String.eqb _ _); [|done].
      destruct (renderReadme _ _); [|done].
      by apply accumulatorsOwn_store.
Qed.

Lemma walkFn_dir_own path n es e err st :
  accumulatorsOwn root st -> accumulatorsOwn root (walkFn path (Dir n es e) err st).
Proof. intros Hst. unfold walkFn. destruct err, path; done. Qed.

Lemma walkDir_own d : forall path es st,
  dirAt root path es -> d ∈ es ->
  validPath path -> validName (Entry_Name d) = true -> validTree d = true ->
  accumulatorsOwn root st ->
  accumulatorsOwn root (walkDir (path ++ [Entry_Name d]) d st).
Proof.
  induction d as [n c|n ds e IH] using Entry_tree_ind;
    intros path es st Hat Hin Hv Hn Ht Hst; rewrite walkDir_eq.
  - by eapply walkFn_file_own.
  - cbn [Entry_Name] in *.
    pose proof (dirAt_snoc _ _ _ _ _ _ Hat Hin) as Hat'.
    pose proof (validPath_snoc _ _ Hv Hn) as Hv'.
    apply validTree_Dir in Ht. rewrite Forall_forall in IH, Ht.
    apply walkEntries_preserves.
    + intros d1 st1 Hd1 Hst1.
      destruct (Ht d1 Hd1) as [Hn1 Ht1]. by apply (IH d1 Hd1 _ ds).
    + destruct e; auto using walkFn_dir_own.
Qed.

End WalkInvariant.

Lemma WalkDir_own `{!Strings.Casing} `{!Goldmark} `{!GoSort} (root : Entry) :
  validTree root = true -> accumulatorsOwn root (WalkDir root initScan).
Proof.
  intros Ht. unfold WalkDir. rewrite walkDir_eq.
  destruct root as [n c|n ds e]; [done|].
  apply validTree_Dir in Ht. rewrite Forall_forall in Ht.
  apply walkEntries_preserves.
  - intros d1 st1 Hd1 Hst1.
    destruct (Ht d1 Hd1) as [Hn1 Ht1].
    apply (walkDir_own (Dir n ds e) d1 [] ds); try done; constructor.
  - destruct e; done.
Qed.

(** ** The General bucket *)

Section GeneralBucket.
Context `{!Strings.Casing} `{!Goldmark} `{!GoSort}.

Lemma generalDocs_withAccumulator k st :
  generalDocs (withAccumulator k st) = generalDocs st.
Proof. unfold withAccumulator. by destruct (sectionsMap st !! k). Qed.

Lemma walkFn_dir_general path n es e err st :
  generalDocs (walkFn path (Dir n es e) err st) = generalDocs st.
Proof. unfold walkFn. by destruct err, path. Qed.

Lemma walkDir_nested_general d : forall path st,
  path <> [] -> validPath path ->
  validName (Entry_Name d) = true -> validTree d = true ->
  generalDocs (walkDir (path ++ [Entry_Name d]) d st) = generalDocs st.
Proof.
  induction d as [n c|n ds e IH] using Entry_tree_ind;
    intros path st Hp Hv Hn Ht; rewrite walkDir_eq; cbn [Entry_Name] in *.
  - rewrite walkFn_nested_file by done. cbv zeta.
    repeat case_match; cbn [generalDocs storeSection log_Printf];
      apply generalDocs_withAccumulator.
  - apply validTree_Dir in Ht. rewrite Forall_forall in IH, Ht.
    apply (walkEntries_preserves (fun st' => generalDocs st' = generalDocs st)).
    + intros d1 st1 Hd1 <-. destruct (Ht d1 Hd1) as [Hn1 Ht1].
      apply IH; auto using validPath_snoc. by destruct path.
    + destruct e; by rewrite !walkFn_dir_general.
Qed.

Lemma walkDir_root_general d st :
  validName (Entry_Name d) = true -> validTree d = true ->
  generalDocs (walkDir ([] ++ [Entry_Name d]) d st)
  = generalDocs st ++ omap pdfDocument [d].
Proof.
  intros Hn Ht. rewrite walkDir_eq. destruct d as [n c|n ds e]; cbn [Entry_Name app] in *.
  - rewrite walkFn_root_file by by apply validName_inv.
    cbn [omap list_omap pdfDocument].
    destruct (Strings.HasSuffix _ _); [done|]. by rewrite app_nil_r.
  - cbn [omap list_omap pdfDocument]. rewrite app_nil_r.
    apply validTree_Dir in Ht. rewrite Forall_forall in Ht.
    apply (walkEntries_preserves (fun st' => generalDocs st' = generalDocs st)).
    + intros d1 st1 Hd1 <-. destruct (Ht d1 Hd1) as [Hn1 Ht1].
      apply walkDir_nested_general; try done. by repeat constructor.
    + destruct e; by rewrite !walkFn_dir_general.
Qed.

Lemma walkEntries_root_general ds : forall st,
  Forall (fun d1 => validName (Entry_Name d1) = true /\ validTree d1 = true) ds ->
  generalDocs (walkEntries [] ds st) = generalDocs st ++ omap pdfDocument ds.
Proof.
  induction ds as [|d ds IH]; intros st Hds.
  - by rewrite app_nil_r.
  - apply Forall_cons in Hds as [[Hn Ht] Hds].
    rewrite walkEntries_cons, IH, walkDir_root_general by done.
    rewrite <- app_assoc. f_equal.
    change (d :: ds) with ([d] ++ ds). by rewrite omap_app.
Qed.

Lemma WalkDir_general root :
  validTree root = true ->
  generalDocs (WalkDir root initScan) = rootPdfs root.
Proof.
  intros Ht. unfold WalkDir. rewrite walkDir_eq.
  destruct root as [n c|n ds e]; [done|]. cbn [rootPdfs].
  rewrite walkEntries_root_general by by apply (validTree_Dir n ds e).
  by destruct e.
Qed.

End GeneralBucket.

(** ** Assembly *)

Section Assembly.
Context `{!Strings.Casing} `{!Goldmark} `{!GoSort}.

Lemma emitSection_Some m k s :
  emitSection m k = Some s ->
  exists sec, m !! k = Some sec
    /\ (sec_Documents sec <> [] \/ sec_Readme sec <> "")
    /\ s = {| sec_Name := sec_Name sec;
              sec_Documents := sort_Slice lessByLowerName (sec_Documents sec);
              sec_Readme := sec_Readme sec |}.
Proof.
  unfold emitSection. destruct (m !! k) as [sec|]; [|done].
  destruct (bool_decide (sec_Documents sec = [])) eqn:Hd;
    [destruct (String.eqb (sec_Readme sec) "") eqn:Hr|]; cbn [andb];
    intros [= <-]; exists sec; repeat split.
  - right. by apply String.eqb_neq.
  - left. by apply bool_decide_eq_false in Hd.
Qed.

Lemma elem_of_dirSections m s :
  s ∈ dirSections m ->
  exists k sec, m !! k = Some sec
    /\ (sec_Documents sec <> [] \/ sec_Readme sec <> "")
    /\ s = {| sec_Name := sec_Name sec;
              sec_Documents := sort_Slice lessByLowerName (sec_Documents sec);
              sec_Readme := sec_Readme sec |}.
Proof.
  unfold dirSections. intros (k & _ & Hk)%list_elem_of_omap.
  exists k. by apply emitSection_Some.
Qed.

(** Any sorted rearrangement of the keys is the list [sort_Strings] gives. *)
Lemma sort_Strings_unique keys sorted :
  sorted ≡ₚ keys -> Sorted String.le sorted -> sorted = sort_Strings keys.
Proof.
  intros Hp Hs. apply (Sorted_unique String.le); [done|apply Sorted_merge_sort; apply _|].
  unfold sort_Strings. by rewrite merge_sort_Permutation.
Qed.

Lemma sort_Strings_sorted keys :
  NoDup keys -> StronglySorted (strict String.le) (sort_Strings keys).
Proof.
  intros Hnd. unfold sort_Strings.
  assert (NoDup (merge_sort String.le keys)) as Hnd'
    by by rewrite merge_sort_Permutation.
  pose proof (StronglySorted_merge_sort String.le keys) as Hs.
  induction Hs as [|k l _ IH Hall]; constructor.
  - apply IH. by apply NoDup_cons in Hnd' as [_ ?].
  - apply NoDup_cons in Hnd' as [Hk _].
    rewrite Forall_forall in Hall |- *. intros k' Hk'. split; [by apply Hall|].
    intros Hle. apply Hk.
    by rewrite (anti_symm String.le k k' (Hall k' Hk') Hle).
Qed.

Lemma dirSections_names m :
  (forall k sec, m !! k = Some sec -> sec_Name sec = k) ->
  StronglySorted (strict String.le) (sec_Name <$> dirSections m).
Proof.
  intros Hname. unfold dirSections.
  pose proof (sort_Strings_sorted (mapKeys m) (NoDup_fst_map_to_list m)) as Hs.
  induction Hs as [|k l _ IH Hall]; [constructor|].
  cbn [omap list_omap]. fold (omap (emitSection m) l).
  destruct (emitSection m k) as [s|] eqn:Hk; [|done].
  cbn [fmap list_fmap]. fold (sec_Name <$> omap (emitSection m) l).
  constructor; [done|].
  apply emitSection_Some in Hk as (sec & Hsec & _ & ->). cbn [sec_Name].
  rewrite (Hname k sec Hsec).
  rewrite Forall_forall in Hall |- *. intros x (s' & -> & Hs')%list_elem_of_fmap.
  apply list_elem_of_omap in Hs' as (k' & Hk' & Hemit).
  apply emitSection_Some in Hemit as (sec' & Hsec' & _ & ->). cbn [sec_Name].
  rewrite (Hname k' sec' Hsec'). by apply Hall.
Qed.

Lemma generalSection_sorted gds :
  Forall (fun s => StronglySorted byLowerName (sec_Documents s)) (generalSection gds).
Proof.
  destruct gds; constructor; [|constructor]. apply sort_Slice_lessByLowerName.
Qed.

Lemma dirSections_sorted m :
  Forall (fun s => StronglySorted byLowerName (sec_Documents s)) (dirSections m).
Proof.
  apply Forall_forall. intros s (k & sec & _ & _ & ->)%elem_of_dirSections.
  apply sort_Slice_lessByLowerName.
Qed.

Lemma sort_Slice_not_nil {A} (less : A -> A -> bool) x :
  x <> [] -> sort_Slice less x <> [].
Proof.
  intros Hx Hs. apply Hx, Permutation_nil_r. rewrite <- Hs.
  symmetry. apply sort_Slice_Permutation.
Qed.

Lemma sections_not_blank gds m :
  Forall (fun s => sec_Documents s <> [] \/ sec_Readme s <> "")
    (generalSection gds ++ dirSections m).
Proof.
  apply Forall_app. split.
  - destruct gds; constructor; [|constructor]. left. by apply sort_Slice_not_nil.
  - apply Forall_forall. intros s (k & sec & _ & [Hd|Hr] & ->)%elem_of_dirSections.
    + left. by apply sort_Slice_not_nil.
    + by right.
Qed.

End Assembly.

(** ** The sections of a scan *)

Lemma elem_of_rootPdfs `{!Strings.Casing} root doc :
  doc ∈ rootPdfs root <->
  exists n es e c,
    root = Dir n es e /\ File (doc_Name doc) c ∈ es
    /\ Strings.HasSuffix (Strings.ToLower (doc_Name doc)) ".pdf" = true
    /\ doc_URL doc = "/docs/" +:+ doc_Name doc.
Proof.
  destruct root as [n0 c0|n es e]; cbn [rootPdfs].
  - split; [by intros ?%elem_of_nil|by intros (?&?&?&?&?&_)].
  - rewrite list_elem_of_omap. split.
    + intros (d & Hd & Hpdf). destruct d as [nm c|]; [|done]. cbn in Hpdf.
      destruct (Strings.HasSuffix (Strings.ToLower nm) ".pdf") eqn:Hsuf; [|done].
      injection Hpdf as <-. by exists n, es, e, c.
    + intros (n' & es' & e' & c & [= -> -> ->] & Hin & Hsuf & Hurl).
      exists (File (doc_Name doc) c). split; [done|]. cbn. rewrite Hsuf.
      destruct doc; cbn in *. by rewrite Hurl.
Qed.

Section ScanSections.
Context `{!Strings.Casing} `{!Goldmark} `{!GoSort}.

(** C4: for every tree of well-formed names, every section [scan] returns
    has a document or a non-empty readme; the list splits into the General
    part, whose documents are regular files directly under the root, and
    the directory part, where every section is named after a directory
    below the root and every document of it is a regular file directly
    inside that directory. *)
Theorem sections_list_own_files (r : DocRepository) (fs : FS) (root : Entry)
    (sections : list Section) :
  os_Lstat fs (dir r) = Some root -> validTree root = true ->
  scan r fs = Ok sections ->
  Forall (fun s => sec_Documents s <> [] \/ sec_Readme s <> "") sections
  /\ exists general dirs,
       sections = general ++ dirs
       /\ Forall (fun s => sec_Name s = General /\ listsRootFiles root s) general
       /\ Forall (listsOwnFiles root) dirs.
Proof.
  intros Hfs Hv Hscan. apply (scan_Ok _ _ _ _ Hfs) in Hscan as ->.
  split; [apply sections_not_blank|].
  eexists _, _. split; [done|]. split.
  - rewrite WalkDir_general by done. unfold generalSection.
    destruct (rootPdfs root) as [|d ds] eqn:E; constructor; [|constructor].
    split; [done|]. intros doc. cbn [sec_Documents].
    rewrite sort_Slice_elem_of, <- E.
    intros (n & es & e & c & -> & Hin & _ & Hurl)%elem_of_rootPdfs.
    exists es, c. by repeat split; [constructor|..].
  - apply Forall_forall. intros s (k & sec & Hk & _ & ->)%elem_of_dirSections.
    destruct (WalkDir_own root Hv k sec Hk)
      as [_ (path & Hp & Hvp & Hname & Hex & Hdocs)].
    exists path. repeat split; try done.
    intros doc. cbn [sec_Documents sec_Name]. rewrite sort_Slice_elem_of.
    apply Hdocs.
Qed.

(** C5: for every tree of well-formed names that the walk finds at the
    root the list [scan] returns is the General section, present exactly
    when a PDF sits directly under the root and then holding those PDFs,
    followed by the directory sections in strictly ascending byte-wise
    order of their keys; the documents of every section are in ascending
    order of their names as [strings.ToLower] lowers them, whatever the
    case tables (letters beyond ASCII included) and whatever the sorting
    algorithm. *)
Theorem sections_order (r : DocRepository) (fs : FS) (root : Entry)
    (sections : list Section) :
  os_Lstat fs (dir r) = Some root -> validTree root = true ->
  scan r fs = Ok sections ->
  exists general dirs,
    sections = general ++ dirs
    /\ (rootPdfs root = [] /\ general = []
        \/ rootPdfs root <> []
           /\ exists docs,
                general = [{| sec_Name := General; sec_Documents := docs;
                              sec_Readme := "" |}]
                /\ docs ≡ₚ rootPdfs root)
    /\ StronglySorted (strict String.le) (sec_Name <$> dirs)
    /\ Forall (fun s => StronglySorted byLowerName (sec_Documents s)) sections.
Proof.
  intros Hfs Hv Hscan. apply (scan_Ok _ _ _ _ Hfs) in Hscan as ->.
  eexists _, _. split; [done|]. split; [|split].
  - rewrite WalkDir_general by done. unfold generalSection.
    destruct (rootPdfs root) as [|d ds]; [by left|right].
    split; [done|]. eexists. split; [done|]. apply sort_Slice_Permutation.
  - apply dirSections_names. intros k sec Hk.
    by destruct (WalkDir_own root Hv k sec Hk).
  - apply Forall_app. split; [apply generalSection_sorted|apply dirSections_sorted].
Qed.

End ScanSections.

Lemma sections_list_own_files_witness :
  Forall (fun s => sec_Documents s <> [] \/ sec_Readme s <> "")
    (@scenarioSections asciiCasing simpleGoldmark)
  /\ exists general dirs,
       @scenarioSections asciiCasing simpleGoldmark = general ++ dirs
       /\ Forall (fun s => sec_Name s = General /\ listsRootFiles scenarioRoot s) general
       /\ Forall (listsOwnFiles scenarioRoot) dirs.
Proof.
  apply (@sections_list_own_files asciiCasing simpleGoldmark stableGoSort
           (NewDocRepository "docs" 60) (mount "docs" scenarioRoot));
    [reflexivity | reflexivity | vm_compute; reflexivity].
Defined.

Lemma sections_order_witness :
  exists general dirs,
    sortingSections = general ++ dirs
    /\ (@rootPdfs russianCasing sortingRoot = [] /\ general = []
        \/ @rootPdfs russianCasing sortingRoot <> []
           /\ exists docs,
                general = [{| sec_Name := General; sec_Documents := docs;
                              sec_Readme := "" |}]
                /\ docs ≡ₚ @rootPdfs russianCasing sortingRoot)
    /\ StronglySorted (strict String.le) (sec_Name <$> dirs)
    /\ Forall (fun s => StronglySorted (@byLowerName russianCasing) (sec_Documents s))
         sortingSections.
Proof.
  apply (@sections_order russianCasing simpleGoldmark stableGoSort
           (NewDocRepository "docs" 60) (mount "docs" sortingRoot));
    [reflexivity | reflexivity | vm_compute; reflexivity].
Defined.

(** The case tables make a difference to the order only: with tables that
    know ASCII alone the Russian capital stays in front of the small
    letter, as [os.ReadDir] had them. *)
Example russian_names :
  @Strings.ToLower russianCasing "Я.PDF" = "я.pdf"
  /\ @scan russianCasing simpleGoldmark stableGoSort (NewDocRepository "docs" 60)
       (mount "docs" sortingRoot) = Ok sortingSections
  /\ @scan asciiCasing simpleGoldmark stableGoSort (NewDocRepository "docs" 60)
       (mount "docs" sortingRoot) <> Ok sortingSections.
Proof. repeat split; vm_compute; (reflexivity || discriminate). Qed.

(** * Properties of the rest of the program *)

(** * Further properties of the scanner and the renderer *)

(** ** Every PDF is listed, whatever else cannot be read *)

Section Listing.
Context `{!Strings.Casing} `{!Goldmark} `{!GoSort}.

Lemma listedUnder_store_other k k' sec st doc :
  k <> k' -> listedUnder st k doc -> listedUnder (storeSection k' sec st) k doc.
Proof.
  intros Hne (sec0 & Hk & Hdoc). exists sec0. split; [|done].
  cbn [storeSection sectionsMap]. by rewrite lookup_insert_ne.
Qed.

Lemma listedUnder_store_more k' sec st k doc :
  (forall sec0, sectionsMap st !! k' = Some sec0 ->
     forall d, d ∈ sec_Documents sec0 -> d ∈ sec_Documents sec) ->
  listedUnder st k doc -> listedUnder (storeSection k' sec st) k doc.
Proof.
  intros Hmore (sec0 & Hk & Hdoc). destruct (decide (k = k')) as [->|Hne].
  - exists sec. cbn [storeSection sectionsMap]. rewrite lookup_insert_eq.
    split; [done|]. by eapply Hmore.
  - apply listedUnder_store_other; [done|]. by exists sec0.
Qed.

(** The callback never takes a document away. *)
Lemma walkFn_keeps_listed path d err st k doc :
  listedUnder st k doc -> listedUnder (walkFn path d err st) k doc.
Proof.
  intros Hl. unfold walkFn. destruct err; [done|].
  destruct path as [|p path]; [done|]. cbv zeta.
  destruct (IsDir d); [done|].
  destruct (String.eqb _ "."); [by destruct (Strings.HasSuffix _ _)|].
  set (k' := filepath.Dir (filepath.Join (p :: path))).
  destruct (sectionsMap st !! k') as [sec'|] eqn:Hk'.
  - destruct (Strings.HasSuffix _ _).
    { apply listedUnder_store_more; [|done]. intros sec0 Hsec0 d0 Hd0.
      cbn [sec_Documents]. apply elem_of_app. left. congruence. }
    destruct (String.eqb _ _); [|done].
    destruct (renderReadme _ _); [|done].
    apply listedUnder_store_more; [|done]. intros sec0 Hsec0 d0 Hd0.
    cbn [sec_Documents]. congruence.
  - assert (k <> k') as Hne.
    { intros ->. destruct Hl as (sec0 & Hk & _). congruence. }
    destruct (Strings.HasSuffix _ _);
      [|destruct (String.eqb _ _); [destruct (renderReadme _ _)|]];
      repeat (apply listedUnder_store_other; [done|]); done.
Qed.

Lemma walkDir_keeps_listed d k doc : forall path st,
  listedUnder st k doc -> listedUnder (walkDir path d st) k doc.
Proof.
  induction d as [n c|n es e IH] using Entry_tree_ind; intros path st Hl;
    rewrite walkDir_eq; [by apply walkFn_keeps_listed|].
  rewrite Forall_forall in IH.
  apply (walkEntries_preserves (fun st => listedUnder st k doc)).
  - intros d1 st1 Hd1 Hl1. by apply IH.
  - destruct e; auto using walkFn_keeps_listed.
Qed.

Lemma walkEntries_keeps_listed ds k doc path st :
  listedUnder st k doc -> listedUnder (walkEntries path ds st) k doc.
Proof.
  apply (walkEntries_preserves (fun st => listedUnder st k doc)).
  intros d1 st1 _. apply walkDir_keeps_listed.
Qed.

(** Walking a tree lists every PDF of every directory in it. *)
Lemma walkDir_lists d p es :
  dirAt d p es ->
  forall path0 n c st,
    File n c ∈ es -> path0 ++ p <> [] -> validPath (path0 ++ p) ->
    validName n = true ->
    Strings.HasSuffix (Strings.ToLower n) ".pdf" = true ->
    listedUnder (walkDir path0 d st) (filepath.Join (path0 ++ p))
      {| doc_Name := n;
         doc_URL := "/docs/" +:+ filepath.Join (path0 ++ p) +:+ "/" +:+ n |}.
Proof.
  induction 1 as [n0 es e|n0 es0 e0 d p es' Hd Hat IH];
    intros path0 n c st Hin Hne Hv Hn Hpdf; rewrite walkDir_eq.
  - rewrite app_nil_r in *.
    apply list_elem_of_split in Hin as (l1 & l2 & ->).
    rewrite walkEntries_app, walkEntries_cons.
    apply walkEntries_keeps_listed.
    rewrite walkDir_eq. cbn [Entry_Name].
    rewrite walkFn_nested_file by done. cbv zeta. rewrite Hpdf.
    eexists. cbn [storeSection sectionsMap]. rewrite lookup_insert_eq.
    split; [done|]. cbn [sec_Documents]. apply elem_of_app. right.
    by apply list_elem_of_singleton.
  - apply list_elem_of_split in Hd as (l1 & l2 & ->).
    rewrite walkEntries_app, walkEntries_cons.
    apply walkEntries_keeps_listed.
    replace (path0 ++ Entry_Name d :: p) with ((path0 ++ [Entry_Name d]) ++ p)
      in * by by rewrite <- app_assoc.
    by eapply IH.
Qed.

Lemma dirAt_validPath d p es :
  dirAt d p es -> validTree d = true -> validPath p.
Proof.
  induction 1 as [n0 es e|n0 es0 e0 d p es' Hd Hat IH]; intros Hv; [constructor|].
  apply validTree_Dir in Hv. rewrite Forall_forall in Hv.
  destruct (Hv d Hd) as [Hn Ht]. constructor; [done|by apply IH].
Qed.

Lemma elem_of_sort_Strings_mapKeys (m : gmap string Section) k sec :
  m !! k = Some sec -> k ∈ sort_Strings (mapKeys m).
Proof.
  intros Hk. unfold sort_Strings, mapKeys. rewrite merge_sort_Permutation.
  apply list_elem_of_fmap. exists (k, sec). split; [done|].
  by apply elem_of_map_to_list.
Qed.

Lemma dirSections_lists (m : gmap string Section) k sec doc :
  m !! k = Some sec -> doc ∈ sec_Documents sec ->
  exists s, s ∈ dirSections m /\ sec_Name s = sec_Name sec
            /\ doc ∈ sec_Documents s /\ sec_Readme s = sec_Readme sec.
Proof.
  intros Hk Hdoc. destruct (sec_Documents sec) as [|d0 ds] eqn:Hds;
    [by apply elem_of_nil in Hdoc|].
  eexists. split; [|split; [|split]].
  - unfold dirSections. apply list_elem_of_omap. exists k.
    split; [by eapply elem_of_sort_Strings_mapKeys|].
    by eapply emitSection_documents.
  - done.
  - cbn [sec_Documents]. by rewrite sort_Slice_elem_of.
  - done.
Qed.

(** What the walk of a well-formed tree leaves: every PDF of every
    directory below the root is in the section of that directory, and every
    PDF directly under the root in the General section. *)
Lemma WalkDir_lists_pdf root path es n c :
  validTree root = true -> dirAt root path es -> path <> [] -> File n c ∈ es ->
  Strings.HasSuffix (Strings.ToLower n) ".pdf" = true ->
  exists s, s ∈ dirSections (sectionsMap (WalkDir root initScan))
    /\ sec_Name s = filepath.Join path
    /\ {| doc_Name := n;
          doc_URL := "/docs/" +:+ filepath.Join path +:+ "/" +:+ n |}
       ∈ sec_Documents s.
Proof.
  intros Hv Hat Hp Hin Hpdf.
  pose proof (dirAt_validPath _ _ _ Hat Hv) as Hvp.
  assert (validName n = true) as Hn.
  { clear -Hat Hin Hv. induction Hat as [n0 es e|n0 es0 e0 d p es' Hd Hat IH].
    - apply validTree_Dir in Hv. rewrite Forall_forall in Hv.
      by destruct (Hv _ Hin).
    - apply validTree_Dir in Hv. rewrite Forall_forall in Hv.
      destruct (Hv d Hd). auto. }
  destruct (walkDir_lists root path es Hat [] n c initScan Hin Hp Hvp Hn Hpdf)
    as (sec & Hk & Hdoc). cbn [app] in *.
  destruct (dirSections_lists _ _ _ _ Hk Hdoc) as (s & Hs & Hname & Hdoc' & _).
  exists s. split; [done|]. split; [|done].
  rewrite Hname. by destruct (WalkDir_own root Hv _ _ Hk).
Qed.

Lemma WalkDir_lists_root_pdf root es n c :
  validTree root = true -> dirAt root [] es -> File n c ∈ es ->
  Strings.HasSuffix (Strings.ToLower n) ".pdf" = true ->
  exists s, s ∈ generalSection (generalDocs (WalkDir root initScan))
    /\ sec_Name s = General
    /\ {| doc_Name := n; doc_URL := "/docs/" +:+ n |} ∈ sec_Documents s.
Proof.
  intros Hv Hat Hin Hpdf. rewrite WalkDir_general by done.
  assert ({| doc_Name := n; doc_URL := "/docs/" +:+ n |} ∈ rootPdfs root) as Hdoc.
  { apply elem_of_rootPdfs. inversion Hat; subst. by eexists _, _, _, c. }
  unfold generalSection. destruct (rootPdfs root) as [|d ds] eqn:E;
    [by apply elem_of_nil in Hdoc|].
  eexists. split; [apply list_elem_of_here|]. split; [done|].
  cbn [sec_Documents]. by rewrite sort_Slice_elem_of.
Qed.

(** X1: every PDF directly inside a directory below the root is listed, under
    its own name and with the URL of its path, in a section named after
    that directory. *)
Theorem scan_lists_every_pdf (r : DocRepository) (fs : FS) (root : Entry)
    (sections : list Section) (path : list string) (es : list Entry)
    (n : string) (c : option string) :
  os_Lstat fs (dir r) = Some root -> validTree root = true ->
  scan r fs = Ok sections ->
  dirAt root path es -> path <> [] -> File n c ∈ es ->
  Strings.HasSuffix (Strings.ToLower n) ".pdf" = true ->
  exists s, s ∈ sections /\ sec_Name s = filepath.Join path
    /\ {| doc_Name := n;
          doc_URL := "/docs/" +:+ filepath.Join path +:+ "/" +:+ n |}
       ∈ sec_Documents s.
Proof.
  intros Hfs Hv Hscan Hat Hp Hin Hpdf.
  apply (scan_Ok _ _ _ _ Hfs) in Hscan as ->.
  destruct (WalkDir_lists_pdf root path es n c Hv Hat Hp Hin Hpdf)
    as (s & Hs & Hname & Hdoc).
  exists s. split; [|done]. apply elem_of_app. by right.
Qed.

(** C7, as the code has it: [scan] fails exactly when [os.Stat] of the root
    fails, and then with the stat error.  A root that is there but is no
    directory to the walk, a regular file or a symbolic link, gives no
    sections and no error.  For every other root [scan] returns a list,
    whatever cannot be read below it, and nothing that can be listed is
    lost: every PDF directly under the root is in the General section and
    every PDF of every directory whose listing was obtained is in the
    section of that directory.  A directory that cannot be read adds a log
    line and the walk goes on with the entries that were obtained; a README
    that cannot be read adds a log line (next to the accumulator of its
    directory, if that is new); no other file is opened, so that a file
    that cannot be read is neither logged nor left out. *)
Theorem scan_fails_iff_stat_fails (r : DocRepository) (fs : FS) :
  ((exists e, scan r fs = Err e) <-> os_Stat fs (dir r) = None)
  /\ (os_Stat fs (dir r) = None -> scan r fs = Err ErrStat)
  /\ (forall n c, os_Stat fs (dir r) <> None ->
        os_Lstat fs (dir r) = Some (File n c) -> scan r fs = Ok [])
  /\ (forall root, os_Stat fs (dir r) <> None ->
        os_Lstat fs (dir r) = Some root -> validTree root = true ->
        exists sections,
          scan r fs = Ok sections
          /\ (forall es n c,
                dirAt root [] es -> File n c ∈ es ->
                Strings.HasSuffix (Strings.ToLower n) ".pdf" = true ->
                exists s, s ∈ sections /\ sec_Name s = General
                  /\ {| doc_Name := n; doc_URL := "/docs/" +:+ n |}
                     ∈ sec_Documents s)
          /\ (forall path es n c,
                path <> [] -> dirAt root path es -> File n c ∈ es ->
                Strings.HasSuffix (Strings.ToLower n) ".pdf" = true ->
                exists s, s ∈ sections /\ sec_Name s = filepath.Join path
                  /\ {| doc_Name := n;
                        doc_URL := "/docs/" +:+ filepath.Join path +:+ "/" +:+ n |}
                     ∈ sec_Documents s))
  /\ (forall path n es st, path <> [] ->
        walkDir path (Dir n es true) st
        = walkEntries path es (log_Printf (ErrorAccessing path) st))
  /\ (forall path n st, path <> [] -> Strings.ToLower n = "readme.md" ->
        filepath.Dir (filepath.Join path) <> "." ->
        walkFn path (File n None) false st =
        log_Printf (ErrorReadingREADME (filepath.Dir (filepath.Join path)))
          match sectionsMap st !! filepath.Dir (filepath.Join path) with
          | Some _ => st
          | None =>
              storeSection (filepath.Dir (filepath.Join path))
                {| sec_Name := filepath.Dir (filepath.Join path);
                   sec_Documents := []; sec_Readme := "" |} st
          end)
  /\ (forall path n c st, Strings.ToLower n <> "readme.md" ->
        logged (walkFn path (File n c) false st) = logged st).
Proof.
  split; [|split; [|split; [|split; [|split; [|split]]]]].
  - unfold scan. destruct (os_Stat fs (dir r)) as [d|].
    + split; [by intros [? ?]|done].
    + split; [done|eauto].
  - unfold scan. by intros ->.
  - intros n c Hstat Hlstat. by rewrite (scan_eq r fs _ Hstat Hlstat).
  - intros root Hstat Hlstat Hv. rewrite (scan_eq r fs _ Hstat Hlstat).
    eexists. split; [done|]. split.
    + intros es n c Hat Hin Hpdf.
      destruct (WalkDir_lists_root_pdf root es n c Hv Hat Hin Hpdf)
        as (s & Hs & Hname & Hdoc).
      exists s. split; [|done]. apply elem_of_app. by left.
    + intros path es n c Hp Hat Hin Hpdf.
      destruct (WalkDir_lists_pdf root path es n c Hv Hat Hp Hin Hpdf)
        as (s & Hs & Hname & Hdoc).
      exists s. split; [|done]. apply elem_of_app. by right.
  - apply unreadable_directory_skipped.
  - apply unreadable_README_logged.
  - apply other_file_not_logged.
Qed.

End Listing.

Lemma scan_lists_every_pdf_witness :
  exists s, s ∈ @scenarioSections asciiCasing simpleGoldmark
    /\ sec_Name s = filepath.Join ["HR"; "2025"]
    /\ {| doc_Name := "plan.pdf";
          doc_URL := "/docs/" +:+ filepath.Join ["HR"; "2025"] +:+ "/" +:+ "plan.pdf" |}
       ∈ sec_Documents s.
Proof.
  refine (@scan_lists_every_pdf asciiCasing simpleGoldmark stableGoSort
            (NewDocRepository "docs" 60) (mount "docs" scenarioRoot) scenarioRoot
            (@scenarioSections asciiCasing simpleGoldmark) ["HR"; "2025"]
            [ File "README.md" (Some "# HR 2025");
              File "plan.pdf" (Some "pdf content") ] "plan.pdf" (Some "pdf content")
            _ _ _ _ _ _ _).
  - reflexivity.
  - reflexivity.
  - vm_compute; reflexivity.
  - apply (dirAt_below "docs" _ false
             (Dir "HR" [ Dir "2025" [ File "README.md" (Some "# HR 2025");
                                      File "plan.pdf" (Some "pdf content") ] false;
                         File "README.md" (Some "# HR Section");
                         File "hiring.pdf" (Some "pdf content") ] false) ["2025"]);
      [apply list_elem_of_here|].
    apply (dirAt_below "HR" _ false
             (Dir "2025" [ File "README.md" (Some "# HR 2025");
                           File "plan.pdf" (Some "pdf content") ] false) []);
      [apply list_elem_of_here|apply dirAt_here].
  - discriminate.
  - apply list_elem_of_further, list_elem_of_here.
  - reflexivity.
Defined.

Lemma scan_fails_iff_stat_fails_witness :
  exists sections,
    @scan asciiCasing simpleGoldmark stableGoSort (NewDocRepository "docs" 60)
      (mount "docs" damagedRoot) = Ok sections
    /\ (forall es n c,
          dirAt damagedRoot [] es -> File n c ∈ es ->
          Strings.HasSuffix (@Strings.ToLower asciiCasing n) ".pdf" = true ->
          exists s, s ∈ sections /\ sec_Name s = General
            /\ {| doc_Name := n; doc_URL := "/docs/" +:+ n |} ∈ sec_Documents s)
    /\ (forall path es n c,
          path <> [] -> dirAt damagedRoot path es -> File n c ∈ es ->
          Strings.HasSuffix (@Strings.ToLower asciiCasing n) ".pdf" = true ->
          exists s, s ∈ sections /\ sec_Name s = filepath.Join path
            /\ {| doc_Name := n;
                  doc_URL := "/docs/" +:+ filepath.Join path +:+ "/" +:+ n |}
               ∈ sec_Documents s).
Proof.
  apply (@scan_fails_iff_stat_fails asciiCasing simpleGoldmark stableGoSort
           (NewDocRepository "docs" 60) (mount "docs" damagedRoot)).
  - vm_compute. discriminate.
  - reflexivity.
  - reflexivity.
Defined.

(** The tree with the three unreadable entries: two log lines, in the
    order of the walk, and the two sections with all three PDFs. *)
Example scan_damaged :
  @scan asciiCasing simpleGoldmark stableGoSort (NewDocRepository "docs" 60)
    (mount "docs" damagedRoot) = Ok damagedSections
  /\ logged (@WalkDir asciiCasing simpleGoldmark damagedRoot initScan)
     = [ErrorAccessing ["Broken"]; ErrorReadingREADME "HR"].
Proof. split; vm_compute; reflexivity. Qed.

(** C7 as stated fails in two ways.  A root path that names a regular
    file, or a symbolic link to a directory full of documents, is not a
    directory to the walk, yet [os.Stat] succeeds and [scan] returns no
    sections and no error.  And a file that cannot be read is no failure
    of the walk unless it is a README: a PDF that cannot be read is listed
    like any other, and nothing is logged. *)
Lemma root_not_a_directory_or_unreadable_pdf :
  (IsDir fileAsRoot = false
   /\ @scan asciiCasing simpleGoldmark stableGoSort (NewDocRepository "docs" 60)
        (mount "docs" fileAsRoot) = Ok [])
  /\ (os_Stat (link "docs" (Some scenarioRoot)) "docs" = Some scenarioRoot
      /\ @scan asciiCasing simpleGoldmark stableGoSort (NewDocRepository "docs" 60)
           (link "docs" (Some scenarioRoot)) = Ok [])
  /\ (@scan asciiCasing simpleGoldmark stableGoSort (NewDocRepository "docs" 60)
        (mount "docs"
           (Dir "docs" [Dir "HR" [File "hiring.pdf" None] false] false))
      = Ok [ {| sec_Name := "HR";
                sec_Documents :=
                  [ {| doc_Name := "hiring.pdf";
                       doc_URL := "/docs/HR/hiring.pdf" |} ];
                sec_Readme := "" |} ]
      /\ logged (@WalkDir asciiCasing simpleGoldmark
                   (Dir "docs" [Dir "HR" [File "hiring.pdf" None] false] false)
                   initScan) = []).
Proof. repeat split; vm_compute; reflexivity. Qed.

(** ** Where a readme comes from *)

Section WalkInvariants.
Context `{!Strings.Casing} `{!Goldmark} `{!GoSort}.
Variable root : Entry.
Variable P : ScanState -> Prop.
Hypothesis file_step : forall path es n c st,
  dirAt root path es -> File n c ∈ es -> validPath path -> validName n = true ->
  P st -> P (walkFn (path ++ [n]) (File n c) false st).
Hypothesis dir_step : forall path n es e err st,
  P st -> P (walkFn path (Dir n es e) err st).

Lemma walkDir_invariant d : forall path es st,
  dirAt root path es -> d ∈ es ->
  validPath path -> validName (Entry_Name d) = true -> validTree d = true ->
  P st -> P (walkDir (path ++ [Entry_Name d]) d st).
Proof.
  induction d as [n c|n ds e IH] using Entry_tree_ind;
    intros path es st Hat Hin Hv Hn Ht Hst; rewrite walkDir_eq.
  - by eapply file_step.
  - cbn [Entry_Name] in *.
    pose proof (dirAt_snoc _ _ _ _ _ _ Hat Hin) as Hat'.
    pose proof (validPath_snoc _ _ Hv Hn) as Hv'.
    apply validTree_Dir in Ht. rewrite Forall_forall in IH, Ht.
    apply walkEntries_preserves.
    + intros d1 st1 Hd1 Hst1.
      destruct (Ht d1 Hd1) as [Hn1 Ht1]. by apply (IH d1 Hd1 _ ds).
    + destruct e; auto.
Qed.

End WalkInvariants.

Lemma WalkDir_invariant `{!Strings.Casing} `{!Goldmark} `{!GoSort} (root : Entry)
    (P : ScanState -> Prop) :
  (forall path es n c st,
     dirAt root path es -> File n c ∈ es -> validPath path ->
     validName n = true -> P st -> P (walkFn (path ++ [n]) (File n c) false st)) ->
  (forall path n es e err st, P st -> P (walkFn path (Dir n es e) err st)) ->
  validTree root = true -> P initScan -> P (WalkDir root initScan).
Proof.
  intros Hfile Hdir Ht Hinit. unfold WalkDir. rewrite walkDir_eq.
  destruct root as [n c|n ds e]; [by apply (Hdir [] "" [] false false)|].
  apply validTree_Dir in Ht. rewrite Forall_forall in Ht.
  apply walkEntries_preserves.
  - intros d1 st1 Hd1 Hst1. destruct (Ht d1 Hd1) as [Hn1 Ht1].
    apply (walkDir_invariant (Dir n ds e) P Hfile Hdir d1 [] ds);
      try done; constructor.
  - destruct e; auto.
Qed.

Section Readmes.
Context `{!Strings.Casing} `{!Goldmark} `{!GoSort}.

Lemma readmesFromOwnDir_store root k sec st :
  readmesFromOwnDir root st -> sec_Name sec = k -> readmeFromOwnDir root sec ->
  readmesFromOwnDir root (storeSection k sec st).
Proof.
  intros Hst Hname Hown k' sec'. cbn [storeSection sectionsMap].
  rewrite lookup_insert. case_decide; [|by apply Hst].
  by intros [= <-]; subst.
Qed.

Lemma readmesFromOwnDir_file root path es n c st :
  dirAt root path es -> File n c ∈ es -> validPath path -> validName n = true ->
  readmesFromOwnDir root st ->
  readmesFromOwnDir root (walkFn (path ++ [n]) (File n c) false st).
Proof.
  intros Hat Hin Hv Hn Hst. destruct (decide (path = [])) as [->|Hp].
  { cbn [app]. rewrite walkFn_root_file by by apply validName_inv.
    by destruct (Strings.HasSuffix _ _). }
  rewrite walkFn_nested_file by done. cbv zeta.
  set (k := filepath.Join path).
  assert (sec_Name (accumulator k st) = k
          /\ readmeFromOwnDir root (accumulator k st)) as [Hname Hacc].
  { unfold accumulator. destruct (sectionsMap st !! k) as [sec|] eqn:Hk;
      [by apply Hst|]. split; [done|by left]. }
  assert (readmesFromOwnDir root (withAccumulator k st)) as Hst1.
  { unfold withAccumulator. destruct (sectionsMap st !! k) eqn:Hk; [done|].
    by apply readmesFromOwnDir_store. }
  destruct (Strings.HasSuffix _ _).
  { by apply readmesFromOwnDir_store. }
  destruct (String.eqb _ _) eqn:Hreadme; [|done].
  apply String.eqb_eq in Hreadme.
  destruct c as [content|]; [|done].
  rewrite renderReadme_readable. apply readmesFromOwnDir_store; [done..|].
  right. exists path, es, n, content. cbn [sec_Name sec_Readme].
  rewrite Hname. by repeat split.
Qed.

(** X2: the readme of every section [scan] returns is empty or is what
    [renderReadme] made of a readable file named readme.md, in any letter
    case, that lies directly inside the section's own directory. *)
Theorem readme_from_own_directory (r : DocRepository) (fs : FS) (root : Entry)
    (sections : list Section) :
  os_Lstat fs (dir r) = Some root -> validTree root = true ->
  scan r fs = Ok sections ->
  Forall (readmeFromOwnDir root) sections.
Proof.
  intros Hfs Hv Hscan. apply (scan_Ok _ _ _ _ Hfs) in Hscan as ->.
  apply Forall_app. split.
  - unfold generalSection. destruct (generalDocs _); constructor; [by left|constructor].
  - assert (readmesFromOwnDir root (WalkDir root initScan)) as Hinv.
    { apply WalkDir_invariant;
        [ intros; by eapply readmesFromOwnDir_file
        | intros path n es e err st Hst; unfold walkFn; by destruct err, path
        | done
        | intros k sec Hk; cbn in Hk; by rewrite lookup_empty in Hk ]. }
    apply Forall_forall. intros s (k & sec & Hk & _ & ->)%elem_of_dirSections.
    by destruct (Hinv k sec Hk) as [_ Hsec].
Qed.

End Readmes.

Lemma readme_from_own_directory_witness :
  Forall (@readmeFromOwnDir asciiCasing simpleGoldmark scenarioRoot)
    (@scenarioSections asciiCasing simpleGoldmark).
Proof.
  apply (@readme_from_own_directory asciiCasing simpleGoldmark stableGoSort
           (NewDocRepository "docs" 60) (mount "docs" scenarioRoot));
    [reflexivity | reflexivity | vm_compute; reflexivity].
Defined.

(** ** Rewritten destinations *)

Lemma rewrite_not_relative `{!Strings.Casing} relDir d :
  isRelativeURL (rewrite ("/docs/" +:+ relDir +:+ "/") d) = false.
Proof.
  unfold rewrite. destruct (isRelativeURL d) eqn:E; [|done].
  change ("/docs/" +:+ relDir +:+ "/") with (String "/" ("docs/" +:+ relDir +:+ "/")).
  by rewrite app_String, isRelativeURL_spec.
Qed.

Lemma rewrite_twice `{!Strings.Casing} relDir d :
  rewrite ("/docs/" +:+ relDir +:+ "/") (rewrite ("/docs/" +:+ relDir +:+ "/") d)
  = rewrite ("/docs/" +:+ relDir +:+ "/") d.
Proof.
  unfold rewrite at 1. by rewrite rewrite_not_relative.
Qed.

Lemma Walk_twice visit :
  (forall k, visit (visit k) = visit k) ->
  forall n, ast.Walk visit (ast.Walk visit n) = ast.Walk visit n.
Proof.
  intros Hv. induction n as [k cs IH] using Node_tree_ind.
  cbn [ast.Walk]. rewrite Hv. f_equal.
  induction IH as [|c cs Hc _ IHcs]; [done|]. cbn [map]. by rewrite Hc, IHcs.
Qed.

(** X3: in the tree handed to the renderer no image or link destination is
    relative any more, and walking the tree once more with the same base
    changes nothing. *)
Theorem rewritten_once `{!Strings.Casing} `{!Goldmark} (content relDir : string) :
  Forall (fun d => isRelativeURL d = false)
    (ast.Destinations (rewrittenDoc content relDir))
  /\ ast.Walk (rewriteNode ("/docs/" +:+ relDir +:+ "/")) (rewrittenDoc content relDir)
     = rewrittenDoc content relDir.
Proof.
  unfold rewrittenDoc. cbv zeta. split.
  - rewrite (Destinations_Walk _ (rewrite ("/docs/" +:+ relDir +:+ "/")))
      by done.
    apply Forall_fmap, Forall_forall. intros d _. apply rewrite_not_relative.
  - apply Walk_twice. intros [d|d|t]; cbn [rewriteNode]; by rewrite ?rewrite_twice.
Qed.

(** ** The escaped fallback *)

Lemma bytes_app (a b : string) : bytes (a +:+ b) = bytes a ++ bytes b.
Proof. induction a as [|c a IH]; [done|]. rewrite app_String. cbn. by rewrite IH. Qed.

Lemma escape_byte_safe c :
  Forall (fun b => markupByte b = false) (bytes (template.escape_byte c)).
Proof.
  unfold template.escape_byte.
  destruct (Ascii.eqb c "000") eqn:E0; [by repeat constructor|].
  destruct (Ascii.eqb c "034") eqn:E1; [by repeat constructor|].
  destruct (Ascii.eqb c "039") eqn:E2; [by repeat constructor|].
  destruct (Ascii.eqb c "&") eqn:E3; [by repeat constructor|].
  destruct (Ascii.eqb c "<") eqn:E4; [by repeat constructor|].
  destruct (Ascii.eqb c ">") eqn:E5; [by repeat constructor|].
  repeat constructor. unfold markupByte. by rewrite E0, E1, E2, E4, E5.
Qed.

Lemma HTMLEscapeString_safe (s : string) :
  Forall (fun b => markupByte b = false) (bytes (template.HTMLEscapeString s)).
Proof.
  induction s as [|c s IH]; [constructor|].
  cbn [template.HTMLEscapeString]. rewrite bytes_app.
  apply Forall_app. split; [apply escape_byte_safe|done].
Qed.

Lemma escape_byte_plain c :
  needsEscape c = false -> template.escape_byte c = String c EmptyString.
Proof.
  unfold needsEscape, template.escape_byte. rewrite !orb_false_iff.
  by intros (((((-> & ->) & ->) & ->) & ->) & ->).
Qed.

Lemma escape_byte_long c :
  needsEscape c = true -> (3 <= String.length (template.escape_byte c))%nat.
Proof.
  unfold needsEscape, template.escape_byte.
  destruct (Ascii.eqb c "000"); [cbn; lia|].
  destruct (Ascii.eqb c "034"); [cbn; lia|].
  destruct (Ascii.eqb c "039"); [cbn; lia|].
  destruct (Ascii.eqb c "&"); [cbn; lia|].
  destruct (Ascii.eqb c "<"); [cbn; lia|].
  destruct (Ascii.eqb c ">"); [cbn; lia|done].
Qed.

Lemma length_string_app (a b : string) :
  String.length (a +:+ b) = (String.length a + String.length b)%nat.
Proof. induction a as [|c a IH]; [done|]. rewrite app_String. cbn. by rewrite IH. Qed.

Lemma HTMLEscapeString_length s :
  (String.length s <= String.length (template.HTMLEscapeString s))%nat.
Proof.
  induction s as [|c s IH]; [done|].
  cbn [template.HTMLEscapeString]. rewrite length_string_app. cbn [String.length].
  destruct (needsEscape c) eqn:E.
  - apply escape_byte_long in E. lia.
  - rewrite escape_byte_plain by done. cbn. lia.
Qed.

Lemma HTMLEscapeString_plain (s : string) :
  (template.HTMLEscapeString s = s
   <-> Forall (fun b => needsEscape b = false) (bytes s))
  /\ (String.length s <= String.length (template.HTMLEscapeString s))%nat.
Proof.
  split; [|apply HTMLEscapeString_length].
  induction s as [|c s IH]; [by split; [constructor|]|].
  cbn [template.HTMLEscapeString bytes]. rewrite Forall_cons.
  destruct (needsEscape c) eqn:E.
  - split; [|by intros [? _]]. intros Heq. exfalso.
    apply (f_equal String.length) in Heq.
    rewrite length_string_app in Heq. cbn [String.length] in Heq.
    pose proof (escape_byte_long c E). pose proof (HTMLEscapeString_length s). lia.
  - rewrite escape_byte_plain by done. rewrite app_String.
    change ("" +:+ template.HTMLEscapeString s) with (template.HTMLEscapeString s).
    split.
    + intros [= Heq]. split; [done|by apply IH].
    + intros [_ Hs]. f_equal. by apply IH.
Qed.

(** X4: when the renderer reports an error, what [renderReadme] returns for
    a README that was read contains no angle bracket, no quote of either
    kind and no NUL byte, whatever the README holds; it is the raw content
    itself exactly when that has none of the six bytes [HTMLEscapeString]
    replaces, and it is never shorter than the raw content. *)
Theorem escaped_fallback_has_no_markup `{!Strings.Casing} `{!Goldmark}
    (name content relDir : string)
    (html : template.HTML) :
  md_Render content (rewrittenDoc content relDir) = None ->
  renderReadme (File name (Some content)) relDir = Ok html ->
  Forall (fun b => markupByte b = false) (bytes html)
  /\ (html = content <-> Forall (fun b => needsEscape b = false) (bytes content))
  /\ (String.length content <= String.length html)%nat.
Proof.
  intros Hfail. rewrite renderReadme_readable. unfold readmeOrEscaped.
  rewrite Hfail. intros [= <-].
  split; [apply HTMLEscapeString_safe|apply HTMLEscapeString_plain].
Qed.

Lemma escaped_fallback_has_no_markup_witness :
  Forall (fun b => markupByte b = false) (bytes "&lt;b&gt;R&amp;D&lt;/b&gt;")
  /\ ("&lt;b&gt;R&amp;D&lt;/b&gt;" = "<b>R&D</b>"
      <-> Forall (fun b => needsEscape b = false) (bytes "<b>R&D</b>"))
  /\ (String.length "<b>R&D</b>" <= String.length "&lt;b&gt;R&amp;D&lt;/b&gt;")%nat.
Proof.
  apply (@escaped_fallback_has_no_markup asciiCasing failingGoldmark "README.md" "<b>R&D</b>" "HR"
           "&lt;b&gt;R&amp;D&lt;/b&gt;").
  - reflexivity.
  - reflexivity.
Defined.

(** * Further properties of the cache *)

Section CacheMore.
Context `{!Strings.Casing} `{!Goldmark} `{!GoSort}.

Lemma scan_same_dir r r' fs : dir r' = dir r -> scan r' fs = scan r fs.
Proof. unfold scan. by intros ->. Qed.

Lemma GetSections_keeps r fs clk :
  dir (repo (GetSections r fs clk)) = dir r
  /\ ttl (repo (GetSections r fs clk)) = ttl r
  /\ (ticks clk -> cacheTime r <= atRLock clk ->
      cacheTime (repo (GetSections r fs clk)) <= atStore clk).
Proof.
  unfold GetSections, underLock, ticks.
  repeat case_match; cbn [repo dir ttl cacheTime]; repeat split; lia.
Qed.

(** X5: with a TTL of zero or less nothing is ever served from the cache:
    of callers that take their turns, each one scans, and each gets what
    [scan] returns for the file system of its moment. *)
Theorem no_caching_without_ttl (cs : list (FS * Clock)) :
  forall (r : DocRepository) (t : Z),
    ttl r <= 0 -> cacheTime r <= t -> inTurn t cs ->
    (calls r cs).1.1 = (fun c => scan r c.1) <$> cs
    /\ (calls r cs).2 = length cs.
Proof.
  induction cs as [|[fs clk] cs IH]; intros r t Httl Ht Hturn; [done|].
  destruct Hturn as (Hle & Hclk & Hturn). cbn [calls].
  destruct (GetSections_keeps r fs clk) as (Hdir & Httl' & Htime).
  destruct (IH (repo (GetSections r fs clk)) (atStore clk)) as [Hres Hn];
    [lia|apply Htime; [done|lia]|done|].
  destruct (calls (repo (GetSections r fs clk)) cs) as [[rs r'] n].
  cbn [fst snd] in *. subst rs n.
  assert (returned (GetSections r fs clk) = scan r fs
          /\ scans (GetSections r fs clk) = 1%nat) as [Hret Hone].
  { rewrite GetSections_stale by (try apply isFresh_expired; done || lia).
    by destruct (scan r fs). }
  rewrite Hret, Hone. split; [|done].
  cbn [fmap list_fmap]. f_equal.
  apply list_fmap_ext. intros _ [fs' clk'] _. cbn. by apply scan_same_dir.
Qed.

(** X6: of callers that queue at the write lock, the first one that finds
    the cache stale scans; when its scan returns at least one section,
    everyone behind it whose clock at the lock reads less than the TTL
    past the store returns that list without scanning: one scan in all. *)
Theorem one_scan_for_the_queue (r : DocRepository) (fs : FS) (clk : Clock)
    (sections : list Section) (rest : list (FS * Clock)) :
  isFresh r (atLock clk) = false -> scan r fs = Ok sections -> sections <> [] ->
  Forall (fun c => atLock c.2 - atStore clk < ttl r) rest ->
  (queued r ((fs, clk) :: rest)).1.1 = Ok sections :: ((fun _ => Ok sections) <$> rest)
  /\ (queued r ((fs, clk) :: rest)).2 = 1%nat
  /\ cache (queued r ((fs, clk) :: rest)).1.2 = sections.
Proof.
  intros Hstale Hscan Hne Hrest.
  set (r1 := {| dir := dir r; cache := sections;
                cacheTime := atStore clk; ttl := ttl r |}).
  assert (queued r1 rest = ((fun _ => Ok sections) <$> rest, r1, 0%nat)) as Hq.
  { induction Hrest as [|[fs' clk'] rest Hc _ IH]; [done|]. cbn [queued].
    unfold underLock. rewrite (isFresh_true r1) by done.
    cbn [repo returned scans]. by rewrite IH. }
  assert (underLock r fs clk
          = {| returned := Ok sections; repo := r1; scans := 1 |}) as Hfirst.
  { unfold underLock. by rewrite Hstale, Hscan. }
  cbn [queued]. rewrite Hfirst. cbn [repo returned scans]. by rewrite Hq.
Qed.

End CacheMore.

Lemma no_caching_without_ttl_witness :
  (@calls asciiCasing simpleGoldmark stableGoSort (NewDocRepository "docs" 0)
     [(mount "docs" onePdfRoot, at_ 5); (mount "docs" onePdfRoot, at_ 6)]).2
  = 2%nat.
Proof.
  refine (proj2 (@no_caching_without_ttl asciiCasing simpleGoldmark stableGoSort
                   [(mount "docs" onePdfRoot, at_ 5); (mount "docs" onePdfRoot, at_ 6)]
                   (NewDocRepository "docs" 0) 0 _ _ _));
    vm_compute; repeat split; discriminate.
Defined.

Lemma one_scan_for_the_queue_witness :
  (@queued asciiCasing simpleGoldmark stableGoSort (NewDocRepository "docs" 60)
     [(mount "docs" onePdfRoot, at_ 100); (noFS, at_ 101); (noFS, at_ 159)]).2
  = 1%nat.
Proof.
  refine (proj1 (proj2 (@one_scan_for_the_queue asciiCasing simpleGoldmark stableGoSort
            (NewDocRepository "docs" 60) (mount "docs" onePdfRoot) (at_ 100)
            [ {| sec_Name := General;
                 sec_Documents :=
                   [ {| doc_Name := "doc1.pdf"; doc_URL := "/docs/doc1.pdf" |} ];
                 sec_Readme := "" |} ]
            [(noFS, at_ 101); (noFS, at_ 159)] _ _ _ _))).
  - reflexivity.
  - vm_compute; reflexivity.
  - discriminate.
  - repeat constructor.
Defined.

(** * Configuration *)

Section LoadConfigProperties.
Variable yaml_Unmarshal : string -> option yamlConfig.
Variable ParseDuration : string -> option Z.

Lemma durationStep_error name value set rest cfg :
  (durationStep ParseDuration name value set rest cfg).2 =
  match firstInvalid ParseDuration [(name, value)] with
  | Some n => Some (ErrInvalidDuration n)
  | None => (rest (if String.eqb value "" then cfg
                   else set (durationOf ParseDuration value 0) cfg)).2
  end.
Proof.
  unfold durationStep, parseDurationField, durationOf. cbn [firstInvalid].
  destruct (String.eqb value ""); [done|].
  by destruct (ParseDuration value).
Qed.

Lemma durationStep_ok name value set rest cfg :
  parses ParseDuration value ->
  durationStep ParseDuration name value set rest cfg =
  rest (if String.eqb value "" then cfg
        else set (durationOf ParseDuration value 0) cfg).
Proof.
  unfold durationStep, parseDurationField, durationOf.
  intros [->|[d Hd]]; [done|].
  destruct (String.eqb value ""); [done|]. by rewrite Hd.
Qed.

Lemma firstInvalid_cons name value fields :
  firstInvalid ParseDuration ((name, value) :: fields) =
  match firstInvalid ParseDuration [(name, value)] with
  | Some n => Some n
  | None => firstInvalid ParseDuration fields
  end.
Proof.
  cbn [firstInvalid]. destruct (String.eqb value ""); [done|].
  by destruct (ParseDuration value).
Qed.

Lemma LoadConfig_error yc data :
  yaml_Unmarshal data = Some yc ->
  (LoadConfig yaml_Unmarshal ParseDuration (Data data)).2 =
  ErrInvalidDuration <$> firstInvalid ParseDuration (durationFields yc).
Proof.
  intros Hyc. unfold LoadConfig, durationFields. rewrite Hyc.
  repeat (rewrite durationStep_error, (firstInvalid_cons _ _ (_ :: _));
          destruct (firstInvalid ParseDuration [_]); [done|]).
  rewrite durationStep_error. by destruct (firstInvalid ParseDuration [_]).
Qed.

Lemma firstInvalid_None fields :
  firstInvalid ParseDuration fields = None <->
  Forall (fun f => parses ParseDuration f.2) fields.
Proof.
  induction fields as [|[name value] fields IH]; [done|].
  rewrite Forall_cons, <- IH. cbn [firstInvalid snd]. unfold parses.
  destruct (String.eqb_spec value "") as [->|Hne]; [tauto|].
  destruct (ParseDuration value) as [d|].
  - split; [eauto|tauto].
  - split; [done|]. by intros [[?|[? ?]] _].
Qed.

(** X7: with a file that unmarshals, [LoadConfig] fails exactly when a
    duration that is there does not parse, and the error names the first
    such field in the order cache_ttl, read_timeout, write_timeout,
    idle_timeout, read_header_timeout; an empty value is never parsed. *)
Theorem LoadConfig_first_invalid_duration (data : string) (yc : yamlConfig) :
  yaml_Unmarshal data = Some yc ->
  (LoadConfig yaml_Unmarshal ParseDuration (Data data)).2 =
    ErrInvalidDuration <$> firstInvalid ParseDuration (durationFields yc)
  /\ ((LoadConfig yaml_Unmarshal ParseDuration (Data data)).2 = None <->
      Forall (fun f => parses ParseDuration f.2) (durationFields yc)).
Proof.
  intros Hyc. split; [by apply LoadConfig_error|].
  rewrite (LoadConfig_error yc) by done. rewrite <- firstInvalid_None.
  by destruct (firstInvalid _ _).
Qed.

(** X8: when [LoadConfig] returns no error for a file that unmarshals,
    [main] runs with, for each setting, the flag if it is not empty, else
    the value of the file if it is not empty, else the default; the
    durations and the log file have no flag. *)
Theorem flag_over_file_over_default (data docsDirOverride portOverride : string)
    (yc : yamlConfig) :
  yaml_Unmarshal data = Some yc ->
  (LoadConfig yaml_Unmarshal ParseDuration (Data data)).2 = None ->
  applyOverrides docsDirOverride portOverride
    (LoadConfig yaml_Unmarshal ParseDuration (Data data)).1 =
  effectiveConfig ParseDuration docsDirOverride portOverride yc.
Proof.
  intros Hyc Herr. rewrite (LoadConfig_error yc) in Herr by done.
  apply fmap_None, firstInvalid_None in Herr. unfold durationFields in Herr.
  repeat (apply Forall_cons in Herr as [? Herr]).
  unfold LoadConfig. rewrite Hyc.
  rewrite !durationStep_ok by done.
  unfold applyOverrides, effectiveConfig, stringOf, durationOf, DefaultConfig.
  cbn [fst].
  destruct (String.eqb (y_DocsDir yc) ""), (String.eqb (y_Port yc) ""),
    (String.eqb (y_LogFile yc) ""), (String.eqb (y_CacheTTL yc) ""),
    (String.eqb (y_ReadTimeout yc) ""), (String.eqb (y_WriteTimeout yc) ""),
    (String.eqb (y_IdleTimeout yc) ""), (String.eqb (y_ReadHeaderTimeout yc) ""),
    (String.eqb docsDirOverride ""), (String.eqb portOverride "");
    reflexivity.
Qed.

End LoadConfigProperties.

Lemma LoadConfig_first_invalid_duration_witness :
  (LoadConfig exampleUnmarshal exampleParseDuration
     (Data "write_timeout: soon")).2 =
    ErrInvalidDuration <$>
      firstInvalid exampleParseDuration (durationFields badTimeoutsYaml)
  /\ ((LoadConfig exampleUnmarshal exampleParseDuration
         (Data "write_timeout: soon")).2 = None <->
      Forall (fun f => parses exampleParseDuration f.2)
        (durationFields badTimeoutsYaml)).
Proof.
  apply (LoadConfig_first_invalid_duration exampleUnmarshal exampleParseDuration
           "write_timeout: soon" badTimeoutsYaml).
  reflexivity.
Defined.

Lemma flag_over_file_over_default_witness :
  applyOverrides "" "9090"
    (LoadConfig exampleUnmarshal exampleParseDuration
       (Data "docs_dir: /srv/docs")).1 =
  effectiveConfig exampleParseDuration "" "9090" docsDirYaml.
Proof.
  apply (flag_over_file_over_default exampleUnmarshal exampleParseDuration
           "docs_dir: /srv/docs" "" "9090" docsDirYaml).
  - reflexivity.
  - reflexivity.
Defined.

(** * The handlers and the access log *)

Lemma serveOn_cons {W : Type} (call : http.Call -> W -> W * Z) c calls w :
  serveOn call (c :: calls) w = serveOn call calls (call c w).1.
Proof. reflexivity. Qed.

Section LoggingProperties.
Context {W : Type}.
Variable call : http.Call -> W -> W * Z.
Variable SplitHostPort : string -> option string.

Lemma lrw_call_inner c lrw :
  ResponseWriter (lrw_call W call c lrw).1 = (call c (ResponseWriter lrw)).1
  /\ (lrw_call W call c lrw).2 = (call c (ResponseWriter lrw)).2
  /\ bytes_ (lrw_call W call c lrw).1 =
     bytes_ lrw + if http.isWriteBytes c then (call c (ResponseWriter lrw)).2 else 0.
Proof.
  unfold lrw_call. destruct c; destruct (call _ _) as [w n]; cbn; repeat split; lia.
Qed.

Lemma serveOn_lrw calls : forall lrw,
  ResponseWriter (serveOn (lrw_call W call) calls lrw) =
    serveOn call calls (ResponseWriter lrw)
  /\ bytes_ (serveOn (lrw_call W call) calls lrw) =
     bytes_ lrw + writtenOn call calls (ResponseWriter lrw).
Proof.
  induction calls as [|c calls IH]; intros lrw; cbn; [split; [done|lia]|].
  destruct (lrw_call_inner c lrw) as (Hw & _ & Hb).
  destruct (IH (lrw_call W call c lrw).1) as [IHw IHb].
  unfold serveOn in *. rewrite IHw, IHb, Hw, Hb. split; [done|lia].
Qed.

(** X9: the logging middleware is transparent and counts what was written:
    the wrapped writer gets the handler's calls as it would without the
    middleware; a request for /healthz, or any request while there is no
    access log, adds no line; every other request adds exactly one line
    behind the earlier ones, with the bytes that the wrapped writer reported
    for the handler's [Write]s, added up. *)
Theorem loggingMiddleware_transparent (next : http.Request -> list http.Call)
    (accessLog : option (list AccessEntry)) (r : http.Request) (elapsed : Z)
    (w : W) :
  (loggingMiddleware W call SplitHostPort next accessLog r elapsed w).1 =
    serveOn call (next r) w
  /\ match accessLog with
     | None =>
         (loggingMiddleware W call SplitHostPort next accessLog r elapsed w).2 = None
     | Some lines =>
         if String.eqb (http.Path r) "/healthz" then
           (loggingMiddleware W call SplitHostPort next accessLog r elapsed w).2
           = Some lines
         else
           exists e,
             (loggingMiddleware W call SplitHostPort next accessLog r elapsed w).2
             = Some (lines ++ [e])
             /\ e_bytes e = writtenOn call (next r) w
             /\ e_uri e = http.RequestURI r
             /\ e_remote e = default (http.RemoteAddr r)
                               (SplitHostPort (http.RemoteAddr r))
     end.
Proof.
  unfold loggingMiddleware.
  destruct (serveOn_lrw (next r) {| ResponseWriter := w; status := 0; bytes_ := 0 |})
    as [Hw Hb]. cbn [ResponseWriter bytes_] in Hw, Hb.
  split.
  - destruct accessLog as [lines|]; [|done].
    by destruct (String.eqb _ _).
  - destruct accessLog as [lines|]; [|done].
    destruct (String.eqb _ _); [done|].
    eexists. split; [done|]. cbn [e_bytes e_uri e_remote snd].
    rewrite Hb. split; [lia|]. split; [done|].
    by destruct (SplitHostPort _).
Qed.

Lemma status_without_WriteHeader calls : forall lrw,
  forallb (fun c => negb (http.isWriteHeader c)) calls = true ->
  status lrw <> 0 ->
  status (serveOn (lrw_call W call) calls lrw) = status lrw.
Proof.
  induction calls as [|c calls IH]; intros lrw Hcs Hs; [done|].
  cbn in Hcs. apply andb_prop in Hcs as [Hc Hcs]. cbn.
  unfold serveOn in IH. rewrite IH; [|done|].
  - unfold lrw_call. destruct c; [| done |]; destruct (call _ _); cbn; [done|].
    by destruct (Z.eqb_spec (status lrw) 0).
  - unfold lrw_call. destruct c; [| done |]; destruct (call _ _); cbn; [done|].
    by destruct (Z.eqb_spec (status lrw) 0).
Qed.

Lemma status_nothing_written calls : forall lrw,
  forallb (fun c => negb (http.isWriteHeader c) && negb (http.isWriteBytes c)) calls
    = true ->
  status (serveOn (lrw_call W call) calls lrw) = status lrw.
Proof.
  induction calls as [|c calls IH]; intros lrw Hcs; [done|].
  cbn in Hcs. apply andb_prop in Hcs as [Hc Hcs]. cbn.
  unfold serveOn in IH. rewrite IH by done.
  unfold lrw_call. destruct c; [|done..]. by destruct (call _ _).
Qed.

End LoggingProperties.

Lemma Code_without_WriteHeader calls : forall w,
  forallb (fun c => negb (http.isWriteHeader c)) calls = true ->
  http.wroteHeader w = true ->
  http.Code (serveOn http.record calls w) = http.Code w.
Proof.
  induction calls as [|c calls IH]; intros w Hcs Hw; [done|].
  cbn in Hcs. apply andb_prop in Hcs as [Hc Hcs]. cbn.
  unfold serveOn in IH. rewrite IH; [|done|].
  - destruct c; [| done |]; cbn; by rewrite Hw.
  - destruct c; [| done |]; cbn; by rewrite ?Hw.
Qed.

Lemma Code_nothing_written calls : forall w,
  forallb (fun c => negb (http.isWriteHeader c) && negb (http.isWriteBytes c)) calls
    = true ->
  http.Code (serveOn http.record calls w) = http.Code w.
Proof.
  induction calls as [|c calls IH]; intros w Hcs; [done|].
  cbn in Hcs. apply andb_prop in Hcs as [Hc Hcs]. cbn.
  unfold serveOn in IH. rewrite IH by done.
  destruct c; [|done..]. cbn. by destruct (http.wroteHeader w).
Qed.

Lemma orderly_status calls : forall (lrw : loggingResponseWriter http.ResponseRecorder),
  orderly calls = true -> status lrw = 0 ->
  http.wroteHeader (ResponseWriter lrw) = false ->
  status (serveOn (lrw_call _ http.record) calls lrw) =
  http.Code (serveOn http.record calls (ResponseWriter lrw)).
Proof.
  induction calls as [|c calls IH]; intros lrw Hcs Hs Hw; [done|].
  rewrite !serveOn_cons.
  destruct c as [k v|code|p]; cbn [orderly] in Hcs.
  - rewrite IH; [|done..|by cbn; rewrite Hw]. by cbn.
  - apply andb_prop in Hcs as [Hcode Hcs].
    assert (code <> 0) by (apply andb_prop in Hcode as [?%Z.leb_le _]; lia).
    rewrite status_without_WriteHeader, Code_without_WriteHeader;
      cbn; rewrite ?Hw; done.
  - rewrite status_without_WriteHeader, Code_without_WriteHeader;
      cbn; rewrite ?Hw, ?Hs; done.
Qed.

(** X10: the status the access log gets is the status the client gets
    whenever the handler's calls are in order: it writes something, and it
    sets the status at most once, before it writes.  A handler
    that writes nothing and sets no status is logged with status 0, while
    the client gets 200. *)
Theorem logged_status_is_sent_status (calls : list http.Call) :
  (orderly calls = true ->
   status (serveOn (lrw_call _ http.record) calls
             (newLoggingResponseWriter http.NewRecorder)) =
   http.Code (recorded calls))
  /\ (forallb (fun c => negb (http.isWriteHeader c) && negb (http.isWriteBytes c))
        calls = true ->
      status (serveOn (lrw_call _ http.record) calls
                (newLoggingResponseWriter http.NewRecorder)) = 0
      /\ http.Code (recorded calls) = 200).
Proof.
  split.
  - intros Hcs. by apply orderly_status.
  - intros Hcs. split.
    + by rewrite status_nothing_written.
    + unfold recorded. by rewrite Code_nothing_written.
Qed.

Lemma logged_status_is_sent_status_witness :
  status (serveOn (lrw_call _ http.record) http.NotFound
            (newLoggingResponseWriter http.NewRecorder)) =
  http.Code (recorded http.NotFound)
  /\ status (serveOn (lrw_call _ http.record) [http.SetHeader "Content-Type" "text/html"]
               (newLoggingResponseWriter http.NewRecorder)) = 0
  /\ http.Code (recorded [http.SetHeader "Content-Type" "text/html"]) = 200.
Proof.
  split.
  - apply (proj1 (logged_status_is_sent_status http.NotFound)). reflexivity.
  - apply (proj2 (logged_status_is_sent_status
                    [http.SetHeader "Content-Type" "text/html"])). reflexivity.
Defined.

Lemma Code_Error error code : http.Code (recorded (http.Error error code)) = code.
Proof. reflexivity. Qed.

Lemma Code_pieces k v pieces :
  http.Code (recorded (http.SetHeader k v :: (http.WriteBytes <$> pieces))) = 200.
Proof.
  destruct pieces as [|p pieces]; [done|].
  unfold recorded. rewrite fmap_cons, !serveOn_cons.
  rewrite Code_without_WriteHeader; [done| |done].
  induction pieces as [|q pieces IH]; [done|]. by rewrite fmap_cons.
Qed.

Section HandlerProperties.
Context `{!Strings.Casing} `{!Goldmark} `{!GoSort}.
Variable tmpl_Execute : list Section -> list string * bool.

(** X11: /healthz answers 500 exactly when a scan of the same directory
    would fail, that is when the directory cannot be statted; every other
    time it answers 200 with the body ok, whatever is wrong below the
    root. *)
Theorem healthHandler_reports_scan (rp : DocRepository) (fs : FS) :
  (http.Code (recorded (healthHandler (dir rp) fs)) = 500 <->
   exists e, scan rp fs = Err e)
  /\ (http.Code (recorded (healthHandler (dir rp) fs)) <> 500 ->
      http.Code (recorded (healthHandler (dir rp) fs)) = 200
      /\ http.Body (recorded (healthHandler (dir rp) fs)) = "ok").
Proof.
  unfold healthHandler, scan. destruct (os_Stat fs (dir rp)) as [e|].
  - split; [|done]. split; [done|]. by intros [? ?].
  - split; [|done]. split; [eauto|done].
Qed.

(** X12: while the cache is fresh the index page is served from it and the
    directory is not looked at: the page lists the cached sections also
    after the documents directory has gone, at the very moment at which
    /healthz answers 500. *)
Theorem index_from_cache_while_unhealthy (rp : DocRepository) (fs : FS)
    (clk : Clock) (r : http.Request) :
  http.Path r = "/" ->
  isFresh rp (atRLock clk) = true ->
  os_Stat fs (dir rp) = None ->
  sv_calls (indexHandler tmpl_Execute rp fs clk r) =
    http.SetHeader "Content-Type" "text/html"
    :: (http.WriteBytes <$> (tmpl_Execute (cache rp)).1)
  /\ http.Code (recorded (sv_calls (indexHandler tmpl_Execute rp fs clk r))) = 200
  /\ sv_scans (indexHandler tmpl_Execute rp fs clk r) = O
  /\ sv_repo (indexHandler tmpl_Execute rp fs clk r) = rp
  /\ http.Code (recorded (healthHandler (dir rp) fs)) = 500.
Proof.
  intros Hp Hfresh Hfs. unfold indexHandler, healthHandler.
  rewrite Hp, Hfs, GetSections_hit by done. cbn [negb String.eqb Ascii.eqb Bool.eqb returned repo scans].
  destruct (tmpl_Execute (cache rp)) as [pieces failed]. cbn [sv_calls sv_scans sv_repo fst].
  by rewrite Code_pieces.
Qed.

(** X13: the index handler answers 404 for every path but /, without
    touching the repository; for / it answers 500 exactly when
    [GetSections] returns an error, and 200 otherwise, also when the
    template reports an error; the repository it leaves is the one
    [GetSections] leaves. *)
Theorem indexHandler_answers (rp : DocRepository) (fs : FS) (clk : Clock)
    (r : http.Request) :
  let served := indexHandler tmpl_Execute rp fs clk r in
  let code := http.Code (recorded (sv_calls served)) in
  (http.Path r <> "/" -> code = 404 /\ sv_repo served = rp /\ sv_scans served = O)
  /\ (http.Path r = "/" ->
      (code = 500 <-> exists e, returned (GetSections rp fs clk) = Err e)
      /\ (code = 500 \/ code = 200)
      /\ sv_repo served = repo (GetSections rp fs clk)
      /\ sv_scans served = scans (GetSections rp fs clk)).
Proof.
  cbv zeta. unfold indexHandler. split.
  - intros Hp%String.eqb_neq. by rewrite Hp.
  - intros ->. cbn [negb String.eqb Ascii.eqb Bool.eqb].
    destruct (returned (GetSections rp fs clk)) as [sections|e].
    + destruct (tmpl_Execute sections) as [pieces failed].
      cbn [sv_calls sv_repo sv_scans]. rewrite Code_pieces.
      repeat split; [done| |by right]. by intros [? ?].
    + cbn [sv_calls sv_repo sv_scans]. rewrite Code_Error.
      repeat split; eauto.
Qed.

End HandlerProperties.

Lemma index_from_cache_while_unhealthy_witness :
  sv_calls (@indexHandler asciiCasing simpleGoldmark stableGoSort
              exampleTemplate warmRepository noFS (at_ 130) (exampleRequest "/")) =
    http.SetHeader "Content-Type" "text/html"
    :: (http.WriteBytes <$> (exampleTemplate (cache warmRepository)).1)
  /\ http.Code (recorded (sv_calls
       (@indexHandler asciiCasing simpleGoldmark stableGoSort
          exampleTemplate warmRepository noFS (at_ 130) (exampleRequest "/")))) = 200
  /\ sv_scans (@indexHandler asciiCasing simpleGoldmark stableGoSort
                 exampleTemplate warmRepository noFS (at_ 130) (exampleRequest "/")) = O
  /\ sv_repo (@indexHandler asciiCasing simpleGoldmark stableGoSort
                exampleTemplate warmRepository noFS (at_ 130) (exampleRequest "/"))
     = warmRepository
  /\ http.Code (recorded (healthHandler (dir warmRepository) noFS)) = 500.
Proof.
  apply (@index_from_cache_while_unhealthy asciiCasing simpleGoldmark stableGoSort
           exampleTemplate warmRepository noFS (at_ 130) (exampleRequest "/")).
  - reflexivity.
  - reflexivity.
  - reflexivity.
Defined.

Lemma healthHandler_reports_scan_witness :
  http.Code (recorded (healthHandler "docs" (mount "docs" scenarioRoot))) = 200
  /\ http.Body (recorded (healthHandler "docs" (mount "docs" scenarioRoot))) = "ok".
Proof.
  apply (proj2 (@healthHandler_reports_scan asciiCasing simpleGoldmark stableGoSort
                  (NewDocRepository "docs" 60) (mount "docs" scenarioRoot))).
  vm_compute. discriminate.
Defined.

Lemma indexHandler_answers_witness :
  http.Code (recorded (sv_calls
    (@indexHandler asciiCasing simpleGoldmark stableGoSort exampleTemplate warmRepository
       noFS (at_ 130) (exampleRequest "/favicon.ico")))) = 404
  /\ sv_repo (@indexHandler asciiCasing simpleGoldmark stableGoSort exampleTemplate
                warmRepository noFS (at_ 130) (exampleRequest "/favicon.ico"))
     = warmRepository
  /\ sv_scans (@indexHandler asciiCasing simpleGoldmark stableGoSort exampleTemplate
                 warmRepository noFS (at_ 130) (exampleRequest "/favicon.ico")) = O.
Proof.
  apply (proj1 (@indexHandler_answers asciiCasing simpleGoldmark stableGoSort exampleTemplate
                  warmRepository noFS (at_ 130) (exampleRequest "/favicon.ico"))).
  vm_compute. discriminate.
Defined.

(** * The rotating access log *)

Lemma substring_length n : forall s,
  String.length (String.substring 0 n s) = Nat.min n (String.length s).
Proof.
  induction n as [|n IH]; intros [|c s]; cbn; try done. by rewrite IH.
Qed.

Lemma substring_all s : String.substring 0 (String.length s) s = s.
Proof. induction s as [|c s IH]; [done|]. cbn. by rewrite IH. Qed.

Lemma rotatedName_other fn ts : rotatedName fn ts <> fn.
Proof.
  unfold rotatedName. intros Heq. apply (f_equal String.length) in Heq.
  rewrite !length_string_app in Heq. cbn in Heq. lia.
Qed.

Lemma rw_open_ok rw d rw' d' :
  rw_open rw d = (None, rw', d') ->
  rw' = {| filename := filename rw; maxSize := maxSize rw; file := true;
           size := Z.of_nat (String.length (logContent rw d)) |}
  /\ files d' = <[filename rw := logContent rw d]> (files d)
  /\ space d' = space d /\ blocked d' = blocked d /\ blind d' = blind d
  /\ pinned d' = pinned d /\ stderr d' = stderr d.
Proof.
  unfold rw_open, os_OpenFile, logContent.
  destruct (decide (filename rw ∈ blocked d)); [done|].
  destruct (files d !! filename rw) as [content|] eqn:Hf; cbn [withFiles blind files].
  - destruct (decide (filename rw ∈ blind d)); [done|]. rewrite Hf.
    intros [= <- <-]. cbn. by rewrite insert_id.
  - destruct (decide (filename rw ∈ blind d)); [done|].
    rewrite lookup_insert_eq. by intros [= <- <-].
Qed.

Lemma tracksSize_open rw d rw' d' :
  rw_open rw d = (None, rw', d') -> tracksSize rw' d'.
Proof.
  intros (-> & Hf & _)%rw_open_ok _. cbn [filename size]. rewrite Hf.
  exists (logContent rw d). by rewrite lookup_insert_eq.
Qed.

Lemma rw_open_failed rw d err rw' d' :
  rw_open rw d = (Some err, rw', d') -> rw' = rw.
Proof.
  unfold rw_open. destruct (os_OpenFile (filename rw) d) as [[e|] d1];
    [by intros [= _ <- _]|].
  destruct (decide (filename rw ∈ blind d1)); [by intros [= _ <- _]|done].
Qed.

Lemma tracksSize_file_Write rw d p n err d' :
  file rw = true -> tracksSize rw d ->
  file_Write (filename rw) p d = (n, err, d') ->
  tracksSize {| filename := filename rw; maxSize := maxSize rw; file := true;
                size := size rw + Z.of_nat n |} d'.
Proof.
  intros Hopen Hrw [= <- _ <-] _. destruct (Hrw Hopen) as (content & Hf & Hsize).
  cbn [filename size files]. eexists. rewrite lookup_alter_eq, Hf. cbn [fmap option_fmap option_map].
  split; [done|]. rewrite length_string_app, substring_length, Hsize. lia.
Qed.

(** X14: the size the writer keeps is the length of the log file: a writer
    that [newRotatingWriter] returns has it so, and [Write] keeps it so
    whatever happens on the way, a failed open, a failed rotation or a
    short write included; the file name and the limit never change. *)
Theorem Write_tracks_size (p timestamp : string) (rw : rotatingWriter) (d : Disk) :
  (forall fn limit rw0 d0,
     newRotatingWriter fn limit d = (None, Some rw0, d0) ->
     tracksSize rw0 d0 /\ filename rw0 = fn /\ maxSize rw0 = limit)
  /\ (tracksSize rw d ->
      tracksSize (rw_Write p timestamp rw d).1.2 (rw_Write p timestamp rw d).2
      /\ filename (rw_Write p timestamp rw d).1.2 = filename rw
      /\ maxSize (rw_Write p timestamp rw d).1.2 = maxSize rw).
Proof.
  split.
  { intros fn limit rw0 d0.
    unfold newRotatingWriter.
    destruct (rw_open _ d) as [[[e|] rw1] d1] eqn:Hopen; [done|].
    intros [= <- <-]. split; [by eapply tracksSize_open|].
    by apply rw_open_ok in Hopen as (-> & _). }
  intros Hrw. unfold rw_Write.
  (* the handle is there, or [open] *)
  assert (exists o, (if file rw then (None, rw, d) else rw_open rw d) = o) as [o Ho]
    by eauto. rewrite Ho. destruct o as [[[e|] rw1] d1].
  { destruct (file rw) eqn:Hfile; [done|]. apply rw_open_failed in Ho as ->.
    cbn [fst snd]. by repeat split; [intros ?; congruence|..]. }
  assert (tracksSize rw1 d1 /\ file rw1 = true
          /\ filename rw1 = filename rw /\ maxSize rw1 = maxSize rw)
    as (Hrw1 & Hopen1 & Hfn1 & Hmax1).
  { destruct (file rw) eqn:Hfile.
    - by injection Ho as <- <-.
    - split; [by eapply tracksSize_open|].
      by apply rw_open_ok in Ho as (-> & _). }
  clear Ho Hrw.
  (* rotation, if the write does not fit *)
  assert (exists rw2 d2,
    (if size rw1 + Z.of_nat (String.length p) >? maxSize rw1
     then match rw_rotate timestamp rw1 d1 with
          | (Some err, rw, d) =>
              (rw, {| files := files d; space := space d; blocked := blocked d;
                      blind := blind d; pinned := pinned d;
                      stderr := stderr d ++ [err] |})
          | (None, rw, d) => (rw, d)
          end
     else (rw1, d1)) = (rw2, d2)
    /\ tracksSize rw2 d2 /\ filename rw2 = filename rw /\ maxSize rw2 = maxSize rw)
    as (rw2 & d2 & -> & Hrw2 & Hfn2 & Hmax2).
  { destruct (_ >? _); [|by eauto 10].
    unfold rw_rotate.
    destruct (os_Rename _ _ d1) as [[e|] d1'] eqn:Hren.
    - eexists _, _. split; [done|]. by repeat split; [intros ?|..].
    - destruct (rw_open _ d1') as [[[e|] rw2] d2] eqn:Hopen.
      + apply rw_open_failed in Hopen as ->.
        eexists _, _. split; [done|]. by repeat split; [intros ?|..].
      + eexists _, _. split; [done|]. split; [by eapply tracksSize_open|].
        by apply rw_open_ok in Hopen as (-> & _). }
  destruct (file rw2) eqn:Hopen2; [|by cbn; repeat split; [intros ?; congruence|..]].
  destruct (file_Write (filename rw2) p d2) as [[n err] d3] eqn:Hw.
  cbn [fst snd]. split; [by eapply tracksSize_file_Write|done].
Qed.

(** X15: a [Write] that reports no error has written all of [p]: behind the
    old content when the two fit into [maxSize] together, and otherwise as
    the beginning of a new log file, the old content now lying under the
    file name with the timestamp, in place of whatever was there.  So the
    log file is at most [maxSize] bytes long afterwards if [p] is, however
    long it was before. *)
Theorem Write_appends_or_rotates (p timestamp : string) (rw rw' : rotatingWriter)
    (d d' : Disk) (n : nat) :
  tracksSize rw d ->
  rw_Write p timestamp rw d = (n, None, rw', d') ->
  n = String.length p
  /\ (if Z.of_nat (String.length (logContent rw d)) + Z.of_nat (String.length p)
          >? maxSize rw
      then files d' !! filename rw = Some p
           /\ files d' !! rotatedName (filename rw) timestamp
              = Some (logContent rw d)
      else files d' !! filename rw = Some (logContent rw d +:+ p))
  /\ (Z.of_nat (String.length p) <= maxSize rw ->
      exists content, files d' !! filename rw = Some content
                      /\ Z.of_nat (String.length content) <= maxSize rw).
Proof.
  intros Hrw Hw.
  assert (n = String.length p
    /\ if Z.of_nat (String.length (logContent rw d)) + Z.of_nat (String.length p)
          >? maxSize rw
       then files d' !! filename rw = Some p
            /\ files d' !! rotatedName (filename rw) timestamp
               = Some (logContent rw d)
       else files d' !! filename rw = Some (logContent rw d +:+ p))
    as [Hn Hfiles].
  { revert Hw. unfold rw_Write.
    assert (exists o, (if file rw then (None, rw, d) else rw_open rw d) = o) as [o Ho]
      by eauto. rewrite Ho. destruct o as [[[e|] rw1] d1]; [done|].
    assert (rw1 = {| filename := filename rw; maxSize := maxSize rw; file := true;
                     size := Z.of_nat (String.length (logContent rw d)) |}
            /\ files d1 = <[filename rw := logContent rw d]> (files d)
            /\ pinned d1 = pinned d) as (-> & Hf1 & Hpin1).
    { destruct (file rw) eqn:Hfile.
      - injection Ho as <- <-. destruct (Hrw Hfile) as (content & Hf & Hsize).
        unfold logContent. rewrite Hf. cbn. rewrite insert_id by done.
        split; [|done]. destruct rw; cbn in *; congruence.
      - apply rw_open_ok in Ho. tauto. }
    clear Ho. cbn [size maxSize filename].
    destruct (_ >? _) eqn:Hbig.
    - unfold rw_rotate, os_Rename. cbn [filename maxSize size].
      destruct (decide (filename rw ∈ pinned d1)); [done|].
      rewrite Hf1, lookup_insert_eq.
      match goal with |- context [rw_open ?r ?dd] =>
        destruct (rw_open r dd) as [[[e|] rw2] d2] eqn:Hopen
      end.
      { apply rw_open_failed in Hopen as ->. done. }
      apply rw_open_ok in Hopen as (-> & Hf2 & _).
      cbn [file filename maxSize size files withFiles logContent] in *.
      unfold logContent in Hf2. cbn [files withFiles filename] in Hf2.
      rewrite lookup_insert_ne, lookup_delete_eq in Hf2
        by apply rotatedName_other. cbn in Hf2.
      unfold file_Write. intros [= Hn Herr <- <-]. cbn [files].
      destruct (_ <? _)%nat eqn:Hshort; [done|]. apply Nat.ltb_ge in Hshort.
      assert (Nat.min (String.length p) (space d2) = String.length p) as Hmin by lia.
      split; [lia|]. rewrite Hmin, substring_all, Hf2.
      rewrite lookup_alter_eq, lookup_insert_eq. split; [done|].
      rewrite lookup_alter_ne, lookup_insert_ne, lookup_insert_eq by
        (try apply rotatedName_other; by apply not_eq_sym, rotatedName_other).
      done.
    - cbn [file filename]. unfold file_Write. intros [= Hn Herr <- <-]. cbn [files].
      destruct (_ <? _)%nat eqn:Hshort; [done|]. apply Nat.ltb_ge in Hshort.
      assert (Nat.min (String.length p) (space d1) = String.length p) as Hmin by lia.
      split; [lia|]. rewrite Hmin, substring_all, Hf1.
      by rewrite lookup_alter_eq, lookup_insert_eq. }
  split; [done|]. split; [done|]. intros Hp.
  destruct (_ >? _) eqn:Hbig.
  - destruct Hfiles as [Hf _]. by exists p.
  - rewrite Z.gtb_ltb in Hbig. apply Z.ltb_ge in Hbig.
    eexists. split; [done|]. rewrite length_string_app. lia.
Qed.

Lemma Write_tracks_size_witness :
  tracksSize (rw_Write "0123456789" "20250101-120000" fullWriter fullDisk).1.2
    (rw_Write "0123456789" "20250101-120000" fullWriter fullDisk).2
  /\ filename (rw_Write "0123456789" "20250101-120000" fullWriter fullDisk).1.2
     = "access.log"
  /\ maxSize (rw_Write "0123456789" "20250101-120000" fullWriter fullDisk).1.2 = 20.
Proof.
  apply (proj2 (Write_tracks_size "0123456789" "20250101-120000" fullWriter fullDisk)).
  intros _. exists "0123456789abcdefghij". split; reflexivity.
Defined.

Lemma Write_appends_or_rotates_witness :
  10%nat = String.length "0123456789"
  /\ (files (rw_Write "0123456789" "20250101-120000" fullWriter fullDisk).2
        !! "access.log" = Some "0123456789"
      /\ files (rw_Write "0123456789" "20250101-120000" fullWriter fullDisk).2
           !! "access.log.20250101-120000" = Some "0123456789abcdefghij")
  /\ (Z.of_nat (String.length "0123456789") <= 20 ->
      exists content,
        files (rw_Write "0123456789" "20250101-120000" fullWriter fullDisk).2
          !! "access.log" = Some content
        /\ Z.of_nat (String.length content) <= 20).
Proof.
  apply (Write_appends_or_rotates "0123456789" "20250101-120000" fullWriter
           (rw_Write "0123456789" "20250101-120000" fullWriter fullDisk).1.2
           fullDisk
           (rw_Write "0123456789" "20250101-120000" fullWriter fullDisk).2 10).
  - intros _. exists "0123456789abcdefghij". split; reflexivity.
  - vm_compute. reflexivity.
Defined.

Lemma rw_open_quiet rw d :
  stderr (rw_open rw d).2 = stderr d /\ space (rw_open rw d).2 = space d.
Proof.
  unfold rw_open, os_OpenFile.
  destruct (decide (filename rw ∈ blocked d)); [done|].
  destruct (files d !! filename rw); cbn [withFiles blind];
    by destruct (decide (filename rw ∈ blind d)).
Qed.

Lemma rw_rotate_quiet timestamp rw d :
  stderr (rw_rotate timestamp rw d).2 = stderr d
  /\ space (rw_rotate timestamp rw d).2 = space d.
Proof.
  unfold rw_rotate, os_Rename. cbn [filename].
  destruct (decide (filename rw ∈ pinned d)); [done|].
  destruct (files d !! filename rw); [|done].
  by destruct (rw_open_quiet
       {| filename := filename rw; maxSize := maxSize rw; file := false;
          size := size rw |}
       (withFiles (<[rotatedName (filename rw) timestamp := s]>
                     (delete (filename rw) (files d))) d)) as [-> ->].
Qed.

(** X16: when the rotation fails (the line on stderr tells), [Write] writes
    nothing at all, not to the current file either: it returns 0 bytes and
    the error of a nil file, and leaves the writer without a handle, so that
    the next [Write] opens the log again. *)
Theorem failed_rotation_drops_the_write (p timestamp : string)
    (rw rw' : rotatingWriter) (d d' : Disk) (n : nat) (err : option LogError) :
  rw_Write p timestamp rw d = (n, err, rw', d') ->
  stderr d' <> stderr d ->
  n = O /\ err = Some ErrInvalid /\ file rw' = false /\ space d' = space d.
Proof.
  unfold rw_Write.
  assert (exists o, (if file rw then (None, rw, d) else rw_open rw d) = o
                    /\ stderr o.2 = stderr d /\ space o.2 = space d)
    as (o & -> & Hs & Hsp).
  { destruct (file rw); [by eauto|]. eexists. split; [done|]. apply rw_open_quiet. }
  destruct o as [[[e|] rw1] d1]; cbn [snd] in Hs, Hsp.
  { intros [= _ _ _ <-]. congruence. }
  destruct (_ >? _).
  - pose proof (rw_rotate_quiet timestamp rw1 d1) as [Hs2 Hsp2].
    destruct (rw_rotate timestamp rw1 d1) as [[[e|] rw2] d2] eqn:Hrot;
      cbn [snd] in Hs2, Hsp2.
    + assert (file rw2 = false) as Hnil.
      { revert Hrot. unfold rw_rotate.
        destruct (os_Rename _ _ _) as [[e'|] d''].
        - by intros [= _ <- _].
        - intros Hopen. by apply rw_open_failed in Hopen as ->. }
      rewrite Hnil. intros [= <- <- <- <-] _. cbn [space].
      by rewrite Hsp2, Hnil.
    + destruct (file rw2).
      * intros [= _ _ _ <-]. cbn [stderr]. congruence.
      * intros [= _ _ _ <-]. congruence.
  - destruct (file rw1).
    + intros [= _ _ _ <-]. cbn [stderr]. congruence.
    + intros [= _ _ _ <-]. congruence.
Qed.

Lemma failed_rotation_drops_the_write_witness :
  O = O /\ Some ErrInvalid = Some ErrInvalid
  /\ file (rw_Write "0123456789" "20250101-120000" fullWriter pinnedDisk).1.2 = false
  /\ space (rw_Write "0123456789" "20250101-120000" fullWriter pinnedDisk).2
     = space pinnedDisk.
Proof.
  apply (failed_rotation_drops_the_write "0123456789" "20250101-120000" fullWriter
           (rw_Write "0123456789" "20250101-120000" fullWriter pinnedDisk).1.2
           pinnedDisk
           (rw_Write "0123456789" "20250101-120000" fullWriter pinnedDisk).2
           O (Some ErrInvalid)).
  - vm_compute. reflexivity.
  - vm_compute. discriminate.
Defined.
